(** * nes-games-parse: the extraction pipeline of [src/main.py]

    A shallow embedding of [extract_games_from_html] and of the
    BeautifulSoup, [str] and [re] operations it calls, followed by the
    properties of the extraction that the specification states.

    - Python [str] values are lists of Unicode code points.
    - A parsed document is a tree of tags and strings; a place in the
      document is an index in document order.
    - The body of the function runs in a state-and-exception monad over
      its local variables [games] and [seen_titles] and the process's
      standard output.
    - The HTML parser itself and the two Unicode tables used by [\d],
      [int] and [str.lower] are parameters. *)

From Stdlib Require Import ZArith NArith List String Ascii Decimal DecimalZ DecimalString Lia.
From stdpp Require Import base option list gmap sets sorting.

Local Open Scope N_scope.

(* ===================================================================== *)
(** ** Python strings *)
(* ===================================================================== *)

(** A character is a code point, a [str] is a list of them. *)
Abbreviation char := N (only parsing).
Abbreviation str := (list N) (only parsing).

(** A string literal of the source. *)
Definition lit (s : string) : str := map N_of_ascii (list_ascii_of_string s).

(** [Py_UNICODE_ISSPACE]: the characters [str.strip()] removes. *)
Definition isspace (c : char) : bool :=
  ((0x09 <=? c) && (c <=? 0x0D)) || ((0x1C <=? c) && (c <=? 0x20))
  || (c =? 0x85) || (c =? 0xA0) || (c =? 0x1680)
  || ((0x2000 <=? c) && (c <=? 0x200A))
  || (c =? 0x2028) || (c =? 0x2029) || (c =? 0x202F) || (c =? 0x205F)
  || (c =? 0x3000).

(** [s.lstrip()] *)
Fixpoint lstrip (s : str) : str :=
  match s with
  | c :: s' => if isspace c then lstrip s' else s
  | [] => []
  end.

(** [s.rstrip()] *)
Definition rstrip (s : str) : str := rev (lstrip (rev s)).

(** [s.strip()] *)
Definition strip (s : str) : str := rstrip (lstrip s).

(** [a == b] on characters and, below, on strings. *)
Definition char_eqb (a b : char) : bool := a =? b.

(** [s.startswith(p)] *)
Fixpoint startswith (p s : str) : bool :=
  match p, s with
  | [], _ => true
  | a :: p', b :: s' => char_eqb a b && startswith p' s'
  | _ :: _, [] => false
  end.

(** [sub in s] on strings: [sub] occurs in [s] as a contiguous run. *)
Fixpoint str_in (sub s : str) : bool :=
  startswith sub s ||
  match s with
  | [] => false
  | _ :: s' => str_in sub s'
  end.

Definition str_eqb (a b : str) : bool := bool_decide (a = b).

(** [x in l] on a list of strings. *)
Definition list_in (x : str) (l : list str) : bool := existsb (str_eqb x) l.

(** The character [_]. *)
Definition underscore : N := 95.

(** [str(n)] for an [int]. *)
Definition str_of_int (n : Z) : str :=
  lit (NilEmpty.string_of_int (Z.to_int n)).

(** The ASCII part of [str.lower]. *)
Definition ascii_lower (c : char) : char :=
  if (65 <=? c) && (c <=? 90) then c + 32 else c.

(** [s.isascii()] *)
Definition isascii (s : str) : bool := forallb (fun c => c <? 128) s.

(** The tables of the Unicode database the extraction goes through:
    [decimal c] is the value of [c] when [c] is a decimal digit (general
    category Nd), which is what [\d] matches and what [int] reads;
    [lower] is [str.lower].  Only their ASCII part is fixed here. *)
Class UnicodeData := {
  decimal : char -> option Z;
  decimal_ascii : forall c, c < 128 ->
    decimal c = if (48 <=? c) && (c <=? 57) then Some (Z.of_N c - 48)%Z else None;
  lower : str -> str;
  lower_ascii : forall s, isascii s = true -> lower s = map ascii_lower s
}.

(** The database cut down to ASCII: no digit and no case outside it. *)
Definition ascii_only : UnicodeData := {|
  decimal c := if (48 <=? c) && (c <=? 57) then Some (Z.of_N c - 48)%Z else None;
  decimal_ascii _ _ := eq_refl;
  lower s := map ascii_lower s;
  lower_ascii _ _ := eq_refl
|}.

(* ===================================================================== *)
(** ** Exceptions *)
(* ===================================================================== *)

Inductive exn :=
| FeatureNotFound
| ParserRejectedMarkup
| IndexError
| AttributeError
| ValueError.

Inductive result (A : Type) :=
| Return (a : A)
| Raise (e : exn).
Arguments Return {A} a.
Arguments Raise {A} e.

(* ===================================================================== *)
(** ** The parsed document *)
(* ===================================================================== *)

(** A [Tag] with its name and children, or a [NavigableString].  The
    extraction never reads an attribute, and comments and the other strings
    that [get_text] passes over are left out of the tree: no operation
    below would see them. *)
#[warnings="-register-all"]
Inductive node :=
| NavigableString (s : str)
| Tag (name : str) (contents : list node).

(** [tag.descendants]: everything below [n], in document order. *)
Fixpoint descendants (n : node) : list node :=
  match n with
  | NavigableString _ => []
  | Tag _ cs => flat_map (fun c => c :: descendants c) cs
  end.

(** [tag.get_text()]: the strings below [n], joined in document order. *)
Fixpoint get_text (n : node) : str :=
  match n with
  | NavigableString s => s
  | Tag _ cs => flat_map get_text cs
  end.

(** [n] is a tag whose name is one of [names]. *)
Definition named (names : list str) (n : node) : bool :=
  match n with
  | NavigableString _ => false
  | Tag name _ => list_in name names
  end.

(** [tag.find_all(names)] *)
Definition find_all (names : list str) (n : node) : list node :=
  List.filter (named names) (descendants n).

(** [tag.find(name)]: the first match, or [None]. *)
Definition find (names : list str) (n : node) : option node :=
  head (find_all names n).

(** An element of a soup together with its place in document order, which
    is what [find_previous] starts from. *)
Definition element : Type := nat * node.

(** [soup.find_all(names)], each match with its place. *)
Definition soup_find_all (names : list str) (soup : node) : list element :=
  List.filter (fun e => named names (snd e)) (imap pair (descendants soup)).

(** [el.find_previous(names)]: walking [previous_element] back from the
    element at place [i], the first tag named in [names]; ancestors of the
    element come before it in document order and are walked too. *)
Definition find_previous (names : list str) (soup : node) (i : nat) : option node :=
  last (List.filter (named names) (take i (descendants soup))).

(* ===================================================================== *)
(** ** The state-and-exception monad of the function body *)
(* ===================================================================== *)

(** One dictionary of the [games] list. *)
Record GameRecord := {
  title : str;
  publisher : str;
  year : Z;
  release_date : str;
  region : str
}.

(** The two local variables the loops update, and standard output (one
    entry per printed line). *)
Record frame := {
  games : list GameRecord;
  seen_titles : gset (list N);
  stdout : list (list N)
}.

Definition M (A : Type) : Type := frame -> result A * frame.

#[global] Instance M_ret : MRet M := fun A a f => (Return a, f).

#[global] Instance M_bind : MBind M := fun A B k m f =>
  match m f with
  | (Return a, f') => k a f'
  | (Raise e, f') => (Raise e, f')
  end.

Definition raise {A} (e : exn) : M A := fun f => (Raise e, f).

(** A value or an exception computed without touching the state. *)
Definition lift {A} (r : result A) : M A := fun f => (r, f).

(** [try: m  except: h] *)
Definition try_except {A} (m : M A) (h : exn -> M A) : M A := fun f =>
  match m f with
  | (Return a, f') => (Return a, f')
  | (Raise e, f') => h e f'
  end.

(** [for x in l: body], left by the first exception that escapes [body]. *)
Fixpoint for_ {A} (l : list A) (body : A -> M unit) : M unit :=
  match l with
  | [] => mret tt
  | x :: l' => body x;; for_ l' body
  end.

(** [l[i]] *)
Definition index {A} (l : list A) (i : nat) : M A :=
  match l !! i with
  | Some x => mret x
  | None => raise IndexError
  end.

(** [print(line)] *)
Definition print (line : str) : M unit := fun f =>
  (Return tt, {| games := games f; seen_titles := seen_titles f;
                 stdout := stdout f ++ [line] |}).

(** Reading the two local variables. *)
Definition get_seen_titles : M (gset (list N)) := fun f => (Return (seen_titles f), f).

Definition get_games : M (list GameRecord) := fun f => (Return (games f), f).

(** [seen_titles.add(k)] *)
Definition seen_titles_add (k : str) : M unit := fun f =>
  (Return tt, {| games := games f; seen_titles := {[ k ]} ∪ seen_titles f;
                 stdout := stdout f |}).

(** [games.append(g)] *)
Definition games_append (g : GameRecord) : M unit := fun f =>
  (Return tt, {| games := games f ++ [g]; seen_titles := seen_titles f;
                 stdout := stdout f |}).

(** The exceptions the [except] clause of the row loop names. *)
Definition caught (e : exn) : bool :=
  match e with
  | IndexError | AttributeError | ValueError => true
  | _ => false
  end.

(** The defaults of the two bounds. *)
Definition default_min_year : Z := 85.
Definition default_max_year : Z := 95.

(* ===================================================================== *)
(** ** extract_games_from_html *)
(* ===================================================================== *)

Section Extraction.

Context {U : UnicodeData}.

(** What [\d] matches. *)
Definition isdigit (c : char) : bool :=
  match decimal c with Some _ => true | None => false end.

(** The pattern [19(\d{2})] tried at the start of [s]; the result is
    [group(1)].  49 and 57 are the characters 1 and 9. *)
Definition re_match (s : str) : option (list N) :=
  match s with
  | c1 :: c2 :: d1 :: d2 :: _ =>
      if char_eqb c1 49 && char_eqb c2 57 && isdigit d1 && isdigit d2
      then Some [d1; d2] else None
  | _ => None
  end.

(** [re.search(r'19(\d{2})', s)]: the leftmost place where the pattern
    matches. *)
Fixpoint re_search (s : str) : option (list N) :=
  match re_match s with
  | Some g => Some g
  | None =>
      match s with
      | [] => None
      | _ :: s' => re_search s'
      end
  end.

(** The digits of [s] read from the left onto [acc]. *)
Fixpoint int_digits (acc : Z) (s : str) : result Z :=
  match s with
  | [] => Return acc
  | c :: s' =>
      match decimal c with
      | Some d => int_digits (10 * acc + d) s'
      | None => Raise ValueError
      end
  end.

(** [int(s)] for a string of decimal digits.  [int] also reads a sign,
    blanks around the number and underscores between digits; the text
    matched by [\d{2}] has none of them. *)
Definition int (s : str) : result Z :=
  match s with
  | [] => Raise ValueError
  | _ => int_digits 0 s
  end.

(** The suite of the [try] in the row loop, lines 101-128; a [continue]
    in it is a return from the suite. *)
Definition row_try_suite (min_year max_year : Z) (current_region : str)
    (row : node) : M unit :=
    (let cells := find_all [lit "td"; lit "th"] row in
     if (3 <=? length cells)%nat then
       c0 ← index cells 0;
       let title := strip (get_text c0) in
       if str_in (lit "(Unlicensed)") title then mret tt else
       c1 ← index cells 1;
       let publisher := strip (get_text c1) in
       c2 ← index cells 2;
       let release_date := strip (get_text c2) in
       let year_match := re_search release_date in
       match year_match with
       | Some group1 =>
           year ← lift (int group1);
           if ((min_year <=? year) && (year <=? max_year))%Z then
             let unique_key :=
               title ++ lit "_" ++ str_of_int year ++ lit "_" ++ current_region in
             seen ← get_seen_titles;
             if bool_decide (unique_key ∉ seen) then
               seen_titles_add unique_key;;
               games_append {| title := title; publisher := publisher;
                               year := year; release_date := release_date;
                               region := current_region |}
             else mret tt
           else mret tt
       | None => mret tt
       end
     else mret tt).

(** The [except (IndexError, AttributeError, ValueError): continue] clause:
    the loop goes on to the next row; any other exception goes up. *)
Definition row_except_clause (e : exn) : M unit :=
  if caught e then mret tt else raise e.

(** The body of [for row in rows], lines 100-131. *)
Definition row_loop_body (min_year max_year : Z) (current_region : str)
    (row : node) : M unit :=
  try_except (row_try_suite min_year max_year current_region row)
             row_except_clause.

(** The body of [for table in tables], lines 70-131. *)
Definition table_loop_body (soup : node) (min_year max_year : Z)
    (table : element) : M unit :=
  match find_previous [lit "h2"; lit "h3"] soup (fst table) with
  | None => mret tt
  | Some prev_heading =>
      let region_text := lower (strip (get_text prev_heading)) in
      if negb (str_in (lit "north america") region_text) then mret tt else
      let current_region := lit "North America" in
      print (lit "Processing region: " ++ current_region);;
      match find [lit "tr"] (snd table) with
      | None => mret tt
      | Some header_row =>
          let header_cells := find_all [lit "th"; lit "td"] header_row in
          let header_texts :=
            map (fun cell => lower (strip (get_text cell))) header_cells in
          if negb (list_in (lit "title") header_texts
                   || list_in (lit "game") header_texts) then mret tt else
          let rows := drop 1 (find_all [lit "tr"] (snd table)) in
          for_ rows (row_loop_body min_year max_year current_region)
      end
  end.

(** [BeautifulSoup(markup, features)]: the soup, or the exception the
    constructor raises. *)
Variable BeautifulSoup : str -> str -> result node.

(** The function, run with [out] already printed: what it returns or
    raises, and standard output afterwards. *)
Definition extract_games_from_html (html_content : str) (min_year max_year : Z)
    (out : list str) : result (list GameRecord) * list str :=
  let body : M (list GameRecord) :=
    soup ← try_except (lift (BeautifulSoup html_content (lit "lxml")))
                      (fun _ => lift (BeautifulSoup html_content (lit "html.parser")));
    let tables := soup_find_all [lit "table"] soup in
    for_ tables (table_loop_body soup min_year max_year);;
    get_games in
  let '(r, f) := body {| games := []; seen_titles := ∅; stdout := out |} in
  (r, stdout f).

End Extraction.

(* ===================================================================== *)
(** ** The extraction as a function of the rows *)
(* ===================================================================== *)

(** What follows describes the loops by what they compute: the record a
    row stands for, the tables that are read, the records met in order of
    encounter, and the effect of one record on [games] and [seen_titles]. *)

(** The string built as [unique_key] for a record. *)
Definition unique_key (g : GameRecord) : str :=
  title g ++ lit "_" ++ str_of_int (year g) ++ lit "_" ++ region g.

(** The uniqueness key of the specification. *)
Definition triple (g : GameRecord) : list N * Z * list N :=
  (title g, year g, region g).

(** Lines 119-128 on a frame: [g] is appended unless its key was seen. *)
Definition emit (g : GameRecord) (f : frame) : frame :=
  if bool_decide (unique_key g ∉ seen_titles f)
  then {| games := games f ++ [g];
          seen_titles := {[ unique_key g ]} ∪ seen_titles f;
          stdout := stdout f |}
  else f.

(** [lines] printed after [f]. *)
Definition log (lines : list (list N)) (f : frame) : frame :=
  {| games := games f; seen_titles := seen_titles f;
     stdout := stdout f ++ lines |}.

(** The frame after [gs] were met in this order, starting from [f]. *)
Definition emit_all (gs : list GameRecord) (f : frame) : frame :=
  foldl (fun f g => emit g f) f gs.

(** The frame the function starts its loops in. *)
Definition entry_frame (out : list (list N)) : frame :=
  {| games := []; seen_titles := ∅; stdout := out |}.

(** [unique_key] reads the triple only. *)
Definition key_of_triple (t : list N * Z * list N) : str :=
  t.1.1 ++ lit "_" ++ str_of_int t.1.2 ++ lit "_" ++ t.2.

(** [seen_titles] holds the keys of [games], and nothing else. *)
Definition keyed (f : frame) : Prop :=
  forall k, k ∈ seen_titles f <-> exists g, g ∈ games f /\ unique_key g = k.

(** The two records of the first scenario of the specification. *)
Definition super_mario_bros : GameRecord :=
  {| title := lit "Super Mario Bros."; publisher := lit "Nintendo";
     year := 85; release_date := lit "September 13, 1985";
     region := lit "North America" |}.

Definition the_legend_of_zelda : GameRecord :=
  {| title := lit "The Legend of Zelda"; publisher := lit "Nintendo";
     year := 86; release_date := lit "February 21, 1986";
     region := lit "North America" |}.

Section Records.

Context {U : UnicodeData}.

(** The record lines 101-128 build from a row, when they build one. *)
Definition row_record (min_year max_year : Z) (current_region : str)
    (row : node) : option GameRecord :=
  match find_all [lit "td"; lit "th"] row with
  | c0 :: c1 :: c2 :: _ =>
      if str_in (lit "(Unlicensed)") (strip (get_text c0)) then None else
      match re_search (strip (get_text c2)) with
      | Some group1 =>
          match int group1 with
          | Return y =>
              if ((min_year <=? y) && (y <=? max_year))%Z
              then Some {| title := strip (get_text c0);
                           publisher := strip (get_text c1);
                           year := y;
                           release_date := strip (get_text c2);
                           region := current_region |}
              else None
          | Raise _ => None
          end
      | None => None
      end
  | _ => None
  end.

(** The text [s] reads "19" and then two decimal digits at place [i], and
    the two digits read together have the value [v]. *)
Definition year_at (s : str) (i : nat) (v : Z) : Prop :=
  exists pre d1 d2 post v1 v2,
    s = pre ++ 49 :: 57 :: d1 :: d2 :: post /\ length pre = i /\
    decimal d1 = Some v1 /\ decimal d2 = Some v2 /\ v = (10 * v1 + v2)%Z.

(** The test of line 78 on a heading. *)
Definition heading_accepted (prev_heading : node) : bool :=
  str_in (lit "north america") (lower (strip (get_text prev_heading))).

(** Lines 71-79: the table has a previous h2 or h3 and it is accepted. *)
Definition region_ok (soup : node) (table : element) : bool :=
  match find_previous [lit "h2"; lit "h3"] soup (fst table) with
  | Some prev_heading => heading_accepted prev_heading
  | None => false
  end.

(** Lines 85-94: the table has a first row with a title or game cell. *)
Definition header_ok (table : node) : bool :=
  match find [lit "tr"] table with
  | Some header_row =>
      let header_texts :=
        map (fun cell => lower (strip (get_text cell)))
            (find_all [lit "th"; lit "td"] header_row) in
      list_in (lit "title") header_texts || list_in (lit "game") header_texts
  | None => false
  end.

(** The records of the rows of one table, in row order. *)
Definition table_records (soup : node) (min_year max_year : Z)
    (table : element) : list GameRecord :=
  if region_ok soup table && header_ok (snd table)
  then omap (row_record min_year max_year (lit "North America"))
            (drop 1 (find_all [lit "tr"] (snd table)))
  else [].

(** Every record the rows of the document stand for, in encounter order,
    before duplicates are dropped. *)
Definition candidates (soup : node) (min_year max_year : Z) : list GameRecord :=
  flat_map (table_records soup min_year max_year)
           (soup_find_all [lit "table"] soup).

(** The lines printed for the tables of the document. *)
Definition printed (soup : node) : list (list N) :=
  flat_map (fun table =>
              if region_ok soup table
              then [lit "Processing region: " ++ lit "North America"] else [])
           (soup_find_all [lit "table"] soup).

End Records.

(** The soup the parser hands to the loops: the first attempt's, or the
    second attempt's when the first raises. *)
Definition parsed (BeautifulSoup : str -> str -> result node)
    (html_content : str) : result node :=
  match BeautifulSoup html_content (lit "lxml") with
  | Return soup => Return soup
  | Raise _ => BeautifulSoup html_content (lit "html.parser")
  end.

(* ===================================================================== *)
(** ** Sample documents *)
(* ===================================================================== *)

(** [<name>text</name>] *)
Definition text_tag (name text : string) : node :=
  Tag (lit name) [NavigableString (lit text)].

(** A row of [td] cells. *)
Definition tr_of (texts : list string) : node :=
  Tag (lit "tr") (map (text_tag "td") texts).

(** A table with the usual header row and the given rows. *)
Definition table_of (rows : list (list string)) : node :=
  Tag (lit "table")
      (Tag (lit "tr") (map (text_tag "th") ["Title"; "Publisher"; "Release Date"]%string)
       :: map tr_of rows).

(** The soup object, whose name is not a tag name. *)
Definition soup_of (contents : list node) : node := Tag (lit "[document]") contents.

(** The markup a soup stands for, as the parsers read it. *)
Fixpoint markup_of (n : node) : str :=
  match n with
  | NavigableString s => s
  | Tag name cs =>
      if str_eqb name (lit "[document]") then flat_map markup_of cs
      else lit "<" ++ name ++ lit ">" ++ flat_map markup_of cs
           ++ lit "</" ++ name ++ lit ">"
  end.

(** An installation in which the parser answers [soup]. *)
Definition parser_giving (soup : node) (markup features : str) : result node :=
  Return soup.

(** An installation without lxml, in which html.parser refuses the markup
    it is given, as it does for a marked section it does not know. *)
Definition refusing_parser (markup features : str) : result node :=
  if str_eqb features (lit "lxml") then Raise FeatureNotFound
  else Raise ParserRejectedMarkup.

(** A marked section with a keyword html.parser does not know. *)
Definition marked_section : str := lit "<![x]>".

(** The cells of the two rows of the first scenario. *)
Definition mario_row : list string :=
  ["Super Mario Bros."; "Nintendo"; "September 13, 1985"]%string.
Definition zelda_row : list string :=
  ["The Legend of Zelda"; "Nintendo"; "February 21, 1986"]%string.

(** Scenario A: two rows under "North America". *)
Definition scenario_a : node :=
  soup_of [text_tag "h2" "North America"; table_of [mario_row; zelda_row]].

(** Scenarios B, C, D and F in one table: an unlicensed row, a row of two
    cells, a row met twice with another publisher casing, a date without a
    year, and a year after the upper bound. *)
Definition mixed_rows : list (list string) :=
  [ mario_row;
    ["Bad Game (Unlicensed)"; "Acme"; "1990"];
    ["Short"; "1990"];
    ["Super Mario Bros."; "NINTENDO"; "1985"];
    ["Mystery"; "Acme"; "Unknown"];
    ["Late Game"; "Acme"; "June 1996"];
    zelda_row ]%string.

Definition scenario_mixed : node :=
  soup_of [text_tag "h3" "  North America (NTSC) "; table_of mixed_rows].

(** Scenario E: a well-formed table under "Japan". *)
Definition scenario_e : node :=
  soup_of [text_tag "h2" "Japan"; table_of [mario_row; zelda_row]].


(** A table with only an h1 before it, reading "North America". *)
Definition only_h1 : node :=
  soup_of [text_tag "h1" "North America"; table_of [mario_row]].

(** An h4 reading "Japan" between the h2 and the table. *)
Definition h4_between : node :=
  soup_of [text_tag "h2" "North America"; text_tag "h4" "Japan";
           table_of [mario_row]].

(** The empty document. *)
Definition empty_soup : node := soup_of [].

(** The frame of a run in which nothing was printed before. *)
Definition fresh : frame := entry_frame [].

(* ===================================================================== *)
(** ** Further notions about the extraction *)
(* ===================================================================== *)

(** [s] neither starts nor ends with a character [strip] removes. *)
Definition trimmed (s : str) : Prop :=
  (forall c rest, s = c :: rest -> isspace c = false) /\
  (forall front c, s = front ++ [c] -> isspace c = false).

(** The test of line 116 on a record. *)
Definition in_window (min_year max_year : Z) (g : GameRecord) : bool :=
  ((min_year <=? year g) && (year g <=? max_year))%Z.

(** The line a table with an accepted heading prints. *)
Definition region_line : str := lit "Processing region: " ++ lit "North America".

(* ===================================================================== *)
(** ** print_games_table *)
(* ===================================================================== *)

(** The two renderers take a list of dictionaries.  They are modelled on
    dictionaries with [str] keys holding [int] and [str] values, of which
    the ones [extract_games_from_html] builds are a case; the definitions
    on [GameRecord] below are what the general ones come to on these. *)

(** A value held by a game dictionary: an [int] or a [str]. *)
Inductive value := VInt (n : Z) | VStr (s : str).

#[global] Instance value_eq_dec : EqDecision value.
Proof. solve_decision. Defined.

(** A game, as the renderers are handed it: a [dict] with [str] keys. *)
Abbreviation dict := (gmap (list N) value).

(** The dictionary of lines 122-128, built for a row that is kept. *)
Definition dict_of (g : GameRecord) : dict :=
  {[ lit "title" := VStr (title g);
     lit "publisher" := VStr (publisher g);
     lit "year" := VInt (year g);
     lit "release_date" := VStr (release_date g);
     lit "region" := VStr (region g) ]}.

(** The exceptions the renderers can raise. *)
Module py.
Inductive exception :=
| KeyError (key : str)
| TypeError
| AttributeError
| OSError
| UnicodeEncodeError.
End py.

(** A call returns a value or raises. *)
Inductive outcome (A : Type) :=
| Returned (a : A)
| Raised (e : py.exception).
Arguments Returned {A} a.
Arguments Raised {A} e.

#[global] Instance outcome_ret : MRet outcome := @Returned.
#[global] Instance outcome_bind : MBind outcome :=
  fun A B k m => match m with Returned a => k a | Raised e => Raised e end.

(** [d.get(key, default)] *)
Definition get (key : str) (default : value) (d : dict) : value :=
  match d !! key with Some v => v | None => default end.

(** [str(v)], which is also [format(v, '')]. *)
Definition str_of (v : value) : str :=
  match v with VInt n => str_of_int n | VStr s => s end.

(** [v[:n]]: an [int] is not subscriptable. *)
Definition slice_to (n : nat) (v : value) : outcome str :=
  match v with
  | VStr s => Returned (take n s)
  | VInt _ => Raised py.TypeError
  end.

(** [a < b] on strings: by code point, the shorter first. *)
Fixpoint str_ltb (a b : str) : bool :=
  match a, b with
  | _, [] => false
  | [], _ :: _ => true
  | x :: a', y :: b' => (x <? y) || ((x =? y) && str_ltb a' b')
  end.

(** [key(a) < key(b)] for the keys [(year, title)] of two records of the
    extraction, whose year is an [int] and whose title is a [str]. *)
Definition sort_key_ltb (a b : GameRecord) : bool :=
  (year a <? year b)%Z || ((year a =? year b)%Z && str_ltb (title a) (title b)).

(** [x] put into a sorted list, before the first element that is not
    below it. *)
Fixpoint insert_sorted {A} (ltb : A -> A -> bool) (x : A) (l : list A) : list A :=
  match l with
  | [] => [x]
  | y :: l' => if ltb y x then y :: insert_sorted ltb x l' else x :: l
  end.

(** [sorted(l, key=...)], a stable sort: equal keys stay in the order of
    [l]. *)
Definition sorted {A} (ltb : A -> A -> bool) (l : list A) : list A :=
  foldr (insert_sorted ltb) [] l.

(** [a < b]: [None] where Python raises [TypeError], between an [int] and
    a [str]. *)
Definition value_lt (a b : value) : option bool :=
  match a, b with
  | VInt m, VInt n => Some (m <? n)%Z
  | VStr s, VStr t => Some (str_ltb s t)
  | _, _ => None
  end.

(** [a < b] on tuples of two values: the first place where the two differ
    under [==] decides, and an [int] and a [str] always differ. *)
Definition key_lt (a b : value * value) : option bool :=
  if bool_decide (fst a = fst b)
  then if bool_decide (snd a = snd b) then Some false
       else value_lt (snd a) (snd b)
  else value_lt (fst a) (fst b).

(** The two keys can be compared. *)
Definition comparable (a b : value * value) : bool :=
  match key_lt a b with Some _ => true | None => false end.

(** [a < b] for two keys that can be compared. *)
Definition key_ltb (a b : value * value) : bool :=
  match key_lt a b with Some r => r | None => false end.

(** [lambda x: (x.get('year', '99'), x.get('title', ''))] *)
Definition sort_key (x : dict) : value * value :=
  (get (lit "year") (VStr (lit "99")) x, get (lit "title") (VStr (lit "")) x).

(** [sorted(games, key=...)].  The keys are computed first, which cannot
    fail, and are then compared with [<]; the sort is stable.  A list two
    of whose keys cannot be compared is not sorted, [TypeError] is raised:
    a sort that returns has found every element of its result in order
    with the next one by comparisons that succeeded, and then every two
    keys can be compared ([no_order_without_comparison]). *)
Definition sorted_by_key (games : list dict) : outcome (list dict) :=
  if forallb (fun a => forallb (fun b => comparable (sort_key a) (sort_key b)) games)
             games
  then Returned (sorted (fun a b => key_ltb (sort_key a) (sort_key b)) games)
  else Raised py.TypeError.

(** The game has the sort key [k]. *)
Definition has_key (k : value * value) (game : dict) : bool :=
  bool_decide (sort_key game = k).

(** [format(s, '<width')]: [s] padded with blanks on the right. *)
Definition ljust (width : nat) (s : str) : str :=
  s ++ replicate (width - length s) 32.

(** The separator of the columns. *)
Definition bar : str := lit " | ".

(** Line 255. *)
Definition header_line : str :=
  ljust 6 (lit "Year") ++ bar ++ ljust 50 (lit "Title") ++ bar
  ++ ljust 30 (lit "Publisher") ++ bar ++ ljust 15 (lit "Region") ++ bar
  ++ ljust 8 (lit "Status").

(** ["-" * 120] *)
Definition rule_line : str := replicate 120 45.

(** Line 269 for a record of the extraction. *)
Definition table_row (g : GameRecord) : str :=
  ljust 6 (str_of_int (year g)) ++ bar ++ ljust 50 (take 50 (title g)) ++ bar
  ++ ljust 30 (take 30 (publisher g)) ++ bar ++ ljust 15 (take 15 (region g)).

(** Line 271. *)
Definition total_line (n : nat) : str :=
  lit "Total games: " ++ str_of_int (Z.of_nat n).

(** Lines 260-269: the row of one game. *)
Definition row_text (game : dict) : outcome str :=
  let year := get (lit "year") (VStr (lit "N/A")) game in
  let title := get (lit "title") (VStr (lit "Unknown")) game in
  let publisher := get (lit "publisher") (VStr (lit "Unknown")) game in
  let region := get (lit "region") (VStr (lit "Unknown")) game in
  t ← slice_to 50 title;
  p ← slice_to 30 publisher;
  r ← slice_to 15 region;
  Returned (ljust 6 (str_of year) ++ bar ++ ljust 50 t ++ bar
            ++ ljust 30 p ++ bar ++ ljust 15 r).

(** The loop of lines 259-269 on the sorted list: the rows are printed one
    by one, up to the first that raises. *)
Fixpoint print_rows (rows : list dict) (out : list str) : outcome unit * list str :=
  match rows with
  | [] => (Returned tt, out)
  | game :: rest =>
      match row_text game with
      | Returned line => print_rows rest (out ++ [line])
      | Raised e => (Raised e, out)
      end
  end.

(** Lines 252-271: the table of a list of games that is not empty. *)
Definition print_table (games : list dict) (out : list str)
    : outcome unit * list str :=
  let out := out ++ [header_line; rule_line] in
  match sorted_by_key games with
  | Returned rows =>
      match print_rows rows out with
      | (Returned _, out) => (Returned tt, out ++ [total_line (length games)])
      | (Raised e, out) => (Raised e, out)
      end
  | Raised e => (Raised e, out)
  end.

Section Rendering.

Context {U : UnicodeData}.

(** [name_filter.lower() in game['title'].lower()] for a record of the
    extraction. *)
Definition name_matches (name_filter : str) (g : GameRecord) : bool :=
  str_in (lower name_filter) (lower (title g)).

(** The records kept by [if name_filter: games = [...]]: all of them when
    the filter is [None] or the empty string. *)
Definition filter_by_name (name_filter : option (list N))
    (games : list GameRecord) : list GameRecord :=
  match name_filter with
  | Some (c :: nf) => List.filter (name_matches (c :: nf)) games
  | _ => games
  end.

(** [name_filter.lower() in game['title'].lower()] *)
Definition title_matches (name_filter : str) (game : dict) : outcome bool :=
  match game !! lit "title" with
  | None => Raised (py.KeyError (lit "title"))
  | Some (VInt _) => Raised py.AttributeError
  | Some (VStr title) => Returned (str_in (lower name_filter) (lower title))
  end.

(** The list comprehension of lines 246 and 283. *)
Fixpoint comprehension (name_filter : str) (games : list dict)
    : outcome (list dict) :=
  match games with
  | [] => Returned []
  | game :: rest =>
      keep ← title_matches name_filter game;
      kept ← comprehension name_filter rest;
      Returned (if keep : bool then game :: kept else kept)
  end.

(** [if name_filter: games = [...]]: the list is left as it is when the
    filter is [None] or the empty string. *)
Definition filtered (name_filter : option str) (games : list dict)
    : outcome (list dict) :=
  match name_filter with
  | Some (c :: nf) => comprehension (c :: nf) games
  | _ => Returned games
  end.

(** [print_games_table(games, name_filter)], run with [out] already
    printed: how the call ends, and standard output afterwards.  Standard
    output is taken to accept every line, as in [extract_games_from_html]. *)
Definition print_games_table (games : list dict) (name_filter : option str)
    (out : list str) : outcome unit * list str :=
  match games with
  | [] => (Returned tt, out ++ [lit "No games found."])
  | _ :: _ =>
      match name_filter with
      | Some (c :: nf) =>
          match comprehension (c :: nf) games with
          | Returned [] =>
              (Returned tt,
               out ++ [lit "No games found matching '" ++ (c :: nf) ++ lit "'"])
          | Returned (g :: gs) => print_table (g :: gs) out
          | Raised e => (Raised e, out)
          end
      | _ => print_table games out
      end
  end.


End Rendering.


(* ===================================================================== *)
(** ** create_html_table *)
(* ===================================================================== *)

(** The double quote. *)
Definition dq : str := [34].

(** ["\n".join(lines)] *)
Fixpoint join_lines (lines : list str) : str :=
  match lines with
  | [] => []
  | [l] => l
  | l :: ls => l ++ 10 :: join_lines ls
  end.

(** The literal of lines 286-351, line by line. *)
Definition html_head : str :=
  join_lines [
    lit "";
    lit "    <!DOCTYPE html>";
    lit "    <html>";
    lit "    <head>";
    lit "        <title>NES Games Collection</title>";
    lit "        <style>";
    lit "            body {";
    lit "                font-family: Arial, sans-serif;";
    lit "                margin: 20px;";
    lit "                background-color: #f0f0f0;";
    lit "            }";
    lit "            .container {";
    lit "                max-width: 1200px;";
    lit "                margin: 0 auto;";
    lit "                background-color: white;";
    lit "                padding: 20px;";
    lit "                border-radius: 8px;";
    lit "                box-shadow: 0 2px 4px rgba(0,0,0,0.1);";
    lit "            }";
    lit "            h1 {";
    lit "                color: #333;";
    lit "                text-align: center;";
    lit "                margin-bottom: 30px;";
    lit "            }";
    lit "            table {";
    lit "                width: 100%;";
    lit "                border-collapse: collapse;";
    lit "                margin-top: 20px;";
    lit "            }";
    lit "            th, td {";
    lit "                padding: 12px;";
    lit "                text-align: left;";
    lit "                border-bottom: 1px solid #ddd;";
    lit "            }";
    lit "            th {";
    lit "                background-color: #4CAF50;";
    lit "                color: white;";
    lit "            }";
    lit "            tr:nth-child(even) {";
    lit "                background-color: #f9f9f9;";
    lit "            }";
    lit "            tr:hover {";
    lit "                background-color: #f5f5f5;";
    lit "            }";
    lit "            .status-found {";
    lit "                color: #4CAF50;";
    lit "                font-weight: bold;";
    lit "            }";
    lit "            .total-games {";
    lit "                margin-top: 20px;";
    lit "                text-align: right;";
    lit "                font-weight: bold;";
    lit "            }";
    lit "        </style>";
    lit "    </head>";
    lit "    <body>";
    lit "        <div class=" ++ dq ++ lit "container" ++ dq ++ lit ">";
    lit "            <h1>Nintendo Entertainment System Games</h1>";
    lit "            <table>";
    lit "                <tr>";
    lit "                    <th>Year</th>";
    lit "                    <th>Title</th>";
    lit "                    <th>Publisher</th>";
    lit "                    <th>Region</th>";
    lit "                </tr>";
    lit "    " ].

(** The f-string of lines 360-367 for a record of the extraction. *)
Definition html_row (g : GameRecord) : str :=
  join_lines [
    lit "";
    lit "                <tr>";
    lit "                    <td>" ++ str_of_int (year g) ++ lit "</td>";
    lit "                    <td>" ++ title g ++ lit "</td>";
    lit "                    <td>" ++ publisher g ++ lit "</td>";
    lit "                    <td>" ++ region g ++ lit "</td>";
    lit "                </tr>";
    lit "        " ].

(** The f-string of lines 360-367 for one game: the values are put in
    with [str]. *)
Definition html_row_text (game : dict) : str :=
  let year := get (lit "year") (VStr (lit "N/A")) game in
  let title := get (lit "title") (VStr (lit "Unknown")) game in
  let publisher := get (lit "publisher") (VStr (lit "Unknown")) game in
  let region := get (lit "region") (VStr (lit "Unknown")) game in
  join_lines [
    lit "";
    lit "                <tr>";
    lit "                    <td>" ++ str_of year ++ lit "</td>";
    lit "                    <td>" ++ str_of title ++ lit "</td>";
    lit "                    <td>" ++ str_of publisher ++ lit "</td>";
    lit "                    <td>" ++ str_of region ++ lit "</td>";
    lit "                </tr>";
    lit "        " ].

(** The f-string of lines 370-376, with [n] for [len(games)]. *)
Definition html_foot (n : nat) : str :=
  join_lines [
    lit "";
    lit "            </table>";
    lit "            <div class=" ++ dq ++ lit "total-games" ++ dq
      ++ lit ">Total games: " ++ str_of_int (Z.of_nat n) ++ lit "</div>";
    lit "        </div>";
    lit "    </body>";
    lit "    </html>";
    lit "    " ].

(** The files on disk, each path with the text written to it, and
    standard output. *)
Record world := {
  files : gmap (list N) (list N);
  console : list (list N)
}.

(** The text can be encoded in UTF-8: it holds no surrogate. *)
Definition encodable (s : str) : bool :=
  forallb (fun c => (c <? 55296) || (57343 <? c)) s.

Section Report.

Context {U : UnicodeData}.

(** [os.sep], which [str(Path(...))] puts between the parts of a path. *)
Variable sep : N.

(** Whether [open(path, 'w')] succeeds on these files. *)
Variable open_w : gmap (list N) (list N) -> list N -> bool.

(** [str(Path("assets/nes_games_table.html"))] *)
Definition output_file : str := lit "assets" ++ [sep] ++ lit "nes_games_table.html".

(** The value of [html_content] when the file is written, line 376, for
    records of the extraction. *)
Definition html_content (games : list GameRecord)
    (name_filter : option (list N)) : str :=
  let games := filter_by_name name_filter games in
  html_head ++ flat_map html_row (sorted sort_key_ltb games)
            ++ html_foot (length games).

(** [create_html_table(games, name_filter)]: how the call ends, and the
    files and standard output afterwards.  A file opened for writing is
    emptied; the text is encoded when it is written, and a text that can be
    encoded is taken to be written in full. *)
Definition create_html_table (games : list dict) (name_filter : option str)
    (w : world) : outcome unit * world :=
  match filtered name_filter games with
  | Returned games =>
      match sorted_by_key games with
      | Returned rows =>
          let text :=
            html_head ++ flat_map html_row_text rows ++ html_foot (length games) in
          if open_w (files w) output_file then
            if encodable text then
              (Returned tt,
               {| files := <[ output_file := text ]> (files w);
                  console := console w
                    ++ [[]; lit "HTML table saved to: " ++ output_file] |})
            else
              (Raised py.UnicodeEncodeError,
               {| files := <[ output_file := [] ]> (files w);
                  console := console w |})
          else (Raised py.OSError, w)
      | Raised e => (Raised e, w)
      end
  | Raised e => (Raised e, w)
  end.

End Report.

(* ===================================================================== *)
(** ** rename_rom_file *)
(* ===================================================================== *)

(** [os.path] is [posixpath] or [ntpath]. *)
Inductive platform := Posix | Windows.

(** The separators [os.path.splitext] passes to [_splitext]. *)
Definition path_sep (pf : platform) : N :=
  match pf with Posix => 47 | Windows => 92 end.

Definition path_altsep (pf : platform) : option N :=
  match pf with Posix => None | Windows => Some 47 end.

(** The character [.]. *)
Definition extsep : N := 46.

(** [s.rfind(c)], reading [s] from index [i] on with [found] the last
    place seen so far. *)
Fixpoint rfind_from (c : N) (s : str) (i found : Z) : Z :=
  match s with
  | [] => found
  | x :: s' => rfind_from c s' (i + 1) (if x =? c then i else found)
  end.

(** [s.rfind(c)] for a character [c]: the last index of [c], or -1. *)
Definition rfind (c : N) (s : str) : Z := rfind_from c s 0 (-1).

(** [p[i:j]] for indices that are not negative. *)
Definition slice (p : str) (i j : Z) : str :=
  take (Z.to_nat j - Z.to_nat i) (drop (Z.to_nat i) p).

(** [genericpath._splitext(p, sep, altsep, '.')]: the extension starts at
    the last dot, if it comes after the last separator and after some
    character of the file name that is not a dot. *)
Definition splitext (pf : platform) (p : str) : list N * list N :=
  let sepIndex :=
    match path_altsep pf with
    | Some altsep => Z.max (rfind (path_sep pf) p) (rfind altsep p)
    | None => rfind (path_sep pf) p
    end in
  let dotIndex := rfind extsep p in
  if (sepIndex <? dotIndex)%Z
     && existsb (fun x => negb (x =? extsep)) (slice p (sepIndex + 1) dotIndex)
  then (take (Z.to_nat dotIndex) p, drop (Z.to_nat dotIndex) p)
  else (p, []).

(** [s.replace(old, new)] for a non-empty [old], read from the left;
    [skip] characters of an occurrence just replaced are still to pass. *)
Fixpoint replace_from (old new : str) (skip : nat) (s : str) : str :=
  match s with
  | [] => []
  | c :: s' =>
      match skip with
      | S k => replace_from old new k s'
      | O =>
          if startswith old s
          then new ++ replace_from old new (length old - 1) s'
          else c :: replace_from old new 0 s'
      end
  end.

(** [s.replace(old, new)]: every occurrence of [old], from the left and
    without overlap; an empty [old] is found before every character and
    at the end. *)
Definition replace (old new s : str) : str :=
  match old with
  | [] => new ++ flat_map (fun c => c :: new) s
  | _ :: _ => replace_from old new 0 s
  end.

(** The value of [new_name], lines 147-153. *)
Definition new_name (pf : platform) (old_name : str) (year : Z)
    (publisher : str) : str :=
  let ext := snd (splitext pf old_name) in
  let base_name :=
    strip (replace (lit " (usa)") []
             (replace (lit " (USA)") [] (replace ext [] old_name))) in
  str_of_int year ++ lit " - " ++ base_name ++ lit " (USA) ("
    ++ publisher ++ lit ")" ++ ext.

Section Rename.

(** The directory of the ROMs, and [Path.rename] in it: the directory
    afterwards, or the text of the exception. *)
Variable directory : Type.
Variable path_rename : directory -> list N -> list N -> list N + directory.

(** [rename_rom_file(old_name, year, publisher, roms_dir)]: what it
    returns, the directory and standard output afterwards. *)
Definition rename_rom_file (pf : platform) (old_name : str) (year : Z)
    (publisher : str) (roms_dir : directory) (out : list str)
    : bool * directory * list (list N) :=
  let new := new_name pf old_name year publisher in
  let out := out ++ [[]; lit "Proposed rename:";
                     lit "From: " ++ old_name; lit "To:   " ++ new] in
  match path_rename roms_dir old_name new with
  | inr roms_dir' =>
      (true, roms_dir',
       out ++ [lit "Renamed: " ++ old_name ++ lit " -> " ++ new])
  | inl e =>
      (false, roms_dir,
       out ++ [lit "Error renaming " ++ old_name ++ lit ": " ++ e])
  end.

End Rename.

(* ===================================================================== *)
(** ** check_rom_exists *)
(* ===================================================================== *)

(** The characters of the class that [re.sub] takes out of the title:
    less-than, greater-than, colon, double quote, slash, backslash, bar,
    question mark and star. *)
Definition forbidden (c : char) : bool :=
  existsb (N.eqb c) [60; 62; 58; 34; 47; 92; 124; 63; 42].

(** [year and publisher]: a year that is given and not 0, a publisher
    that is given and not empty. *)
Definition truthy (year : option Z) (publisher : option (list N))
    : option (Z * list N) :=
  match year, publisher with
  | Some y, Some (c :: p) => if (y =? 0)%Z then None else Some (y, c :: p)
  | _, _ => None
  end.

(** The extensions tried, in order. *)
Definition rom_extensions : list str := [lit ".zip"; lit ".nes"; lit ".7z"].

(** The three names tried for a variation and an extension, in order. *)
Definition names_tried (variation ext : str) : list str :=
  [variation ++ lit " (usa)" ++ ext;
   variation ++ lit " (USA)" ++ ext;
   variation ++ ext].

Section Roms.

Context {U : UnicodeData}.

Variable directory : Type.
Variable path_rename : directory -> list N -> list N -> list N + directory.

(** [roms_dir.iterdir()] with [is_file()] for each entry: the names in
    the directory and whether each is a file, or the text of the
    exception. *)
Variable iterdir : directory -> list N + list (list N * bool).

(** Lines 187-188. *)
Definition rom_filename (title : str) : str :=
  strip (List.filter (fun c => negb (forbidden c)) title).

(** Lines 198-209. *)
Definition variations (rom_filename : str) : list str :=
  let low := lower rom_filename in
  [ low;
    replace (lit " ") [] low;
    replace (lit " ") (lit "_") low;
    replace (lit " ") (lit "-") low;
    replace (lit " ") (lit ".") low;
    replace (lit "?") [] (replace (lit "!") [] (replace (lit ":") []
      (replace (lit " ") [] low)));
    replace (lit "?") [] (replace (lit "!") [] (replace (lit ":") [] low));
    replace (lit "the ") [] low;
    replace (lit "a ") [] low;
    replace (lit "an ") [] low ].

(** [[f.name.lower() for f in roms_dir.iterdir() if f.is_file()]] *)
Definition all_files_of (entries : list (list N * bool)) : list str :=
  map (fun entry => lower (fst entry)) (List.filter snd entries).

(** Every name the two loops try, in the order they try them. *)
Definition all_names_tried (title : str) : list str :=
  flat_map (fun ext =>
              flat_map (fun variation => names_tried variation ext)
                       (variations (rom_filename title)))
           rom_extensions.

(** [check_rom_exists(title, roms_dir, year, publisher)]: what it
    returns, the directory and standard output afterwards.  The loops
    stop at the first name tried that is in [all_files]. *)
Definition check_rom_exists (pf : platform) (title : str) (roms_dir : directory)
    (year : option Z) (publisher : option (list N)) (out : list str)
    : bool * directory * list (list N) :=
  match iterdir roms_dir with
  | inl e => (false, roms_dir, out ++ [lit "Error accessing ROM directory: " ++ e])
  | inr entries =>
      let all_files := all_files_of entries in
      match List.find (fun name => list_in name all_files) (all_names_tried title) with
      | Some name =>
          match truthy year publisher with
          | Some (y, p) =>
              let '(_, roms_dir', out') :=
                rename_rom_file directory path_rename pf name y p roms_dir out in
              (true, roms_dir', out')
          | None => (true, roms_dir, out)
          end
      | None => (false, roms_dir, out)
      end
  end.

End Roms.

(* ===================================================================== *)
(** ** More sample data *)
(* ===================================================================== *)

(** A table under "North America" that has its header row only. *)
Definition header_only : node :=
  soup_of [text_tag "h2" "North America"; table_of []].

(** A file system in which every [open] succeeds, and one in which none
    does. *)
Definition open_always (fs : gmap (list N) (list N)) (path : str) : bool := true.
Definition open_never (fs : gmap (list N) (list N)) (path : str) : bool := false.

(** A world with no file and nothing printed. *)
Definition empty_world : world := {| files := ∅; console := [] |}.

(** The character [/]. *)
Definition slash : N := 47.

(** The games of the test of [print_games_table] in tests/test_main.py:
    the year is a [str] and there is no region. *)
Definition test_games : list dict :=
  [ {[ lit "title" := VStr (lit "Super Mario Bros.");
       lit "publisher" := VStr (lit "Nintendo");
       lit "year" := VStr (lit "85") ]};
    {[ lit "title" := VStr (lit "The Legend of Zelda");
       lit "publisher" := VStr (lit "Nintendo");
       lit "year" := VStr (lit "86") ]} ].

(** A game with no title. *)
Definition untitled : dict := {[ lit "publisher" := VStr (lit "Nintendo") ]}.

(** A game whose title is a number. *)
Definition numbered : dict :=
  {[ lit "title" := VInt 1942; lit "year" := VInt 85 ]}.

(** A game with an [int] year and a game with no year, whose key has the
    default '99'. *)
Definition mixed_years : list dict :=
  [ dict_of super_mario_bros; {[ lit "title" := VStr (lit "Tetris") ]} ].

(** Two records whose titles, of 51 characters, part at the last. *)
Definition long_title_a : GameRecord :=
  {| title := replicate 50 65 ++ lit "a"; publisher := lit "Acme"; year := 90;
     release_date := lit "1990"; region := lit "North America" |}.
Definition long_title_b : GameRecord :=
  {| title := replicate 50 65 ++ lit "b"; publisher := lit "Acme"; year := 90;
     release_date := lit "1990"; region := lit "North America" |}.

(** A directory as the list of its entries, each a name and whether it is
    a file; names are compared as they are written. *)
Definition sample_iterdir (d : list (list N * bool)) : list N + list (list N * bool) :=
  inr d.

(** A directory that cannot be listed. *)
Definition missing_iterdir (d : list (list N * bool)) : list N + list (list N * bool) :=
  inl (lit "No such file or directory").

(** Renaming in such a directory: the entry of that very name gets the
    new name, and there must be one. *)
Definition sample_rename (d : list (list N * bool)) (old new : str)
    : list N + list (list N * bool) :=
  if existsb (fun entry => str_eqb (fst entry) old) d
  then inr (map (fun entry => if str_eqb (fst entry) old
                              then (new, snd entry) else entry) d)
  else inl (lit "No such file or directory").

(** A ROM directory with one ROM and one sub-directory. *)
Definition sample_roms : list (list N * bool) :=
  [(lit "Super Mario Bros. (USA).nes", true); (lit "saves", false)].

(* ===================================================================== *)
(** ** Facts about strings *)
(* ===================================================================== *)

Lemma lit_inj (a b : string) : lit a = lit b -> a = b.
Proof.
  unfold lit. intros E.
  rewrite <- (string_of_list_ascii_of_string a), <- (string_of_list_ascii_of_string b).
  f_equal. revert E.
  generalize (list_ascii_of_string a) (list_ascii_of_string b).
  induction l as [|x l IH]; intros [|y l'] E; simpl in E; try discriminate; auto.
  injection E as Exy El. f_equal; auto.
  rewrite <- (ascii_N_embedding x), <- (ascii_N_embedding y). now rewrite Exy.
Qed.

(** [str(n)] determines [n]. *)
Lemma str_of_int_inj (m n : Z) : str_of_int m = str_of_int n -> m = n.
Proof.
  unfold str_of_int. intros E. apply lit_inj in E.
  assert (Ei : Z.to_int m = Z.to_int n).
  { assert (S : Some (Z.to_int m) = Some (Z.to_int n))
      by (rewrite <- !NilEmpty.isi; now rewrite E).
    now injection S. }
  now apply DecimalZ.to_int_inj.
Qed.

Lemma string_of_uint_no_underscore (d : uint) :
  Forall (fun c => c <> underscore) (lit (NilEmpty.string_of_uint d)).
Proof.
  induction d; simpl; try constructor; try exact IHd; unfold underscore; simpl; discriminate.
Qed.

(** The digits of [str(n)] and its sign are not underscores. *)
Lemma str_of_int_no_underscore (n : Z) :
  Forall (fun c => c <> underscore) (str_of_int n).
Proof.
  unfold str_of_int. destruct (Z.to_int n) as [d|d]; simpl.
  - apply string_of_uint_no_underscore.
  - constructor; [unfold underscore; simpl; discriminate|].
    apply string_of_uint_no_underscore.
Qed.

(** A string is cut in one way only at its last [x]. *)
Lemma split_at_last (x : N) (a b d1 d2 : list N) :
  Forall (fun c => c <> x) d1 -> Forall (fun c => c <> x) d2 ->
  a ++ x :: d1 = b ++ x :: d2 -> a = b /\ d1 = d2.
Proof.
  intros H1 H2. revert b.
  induction a as [|y a IH]; intros [|z b] E; simpl in E.
  - injection E as E. auto.
  - injection E as Ex Ed. subst z d1.
    apply Forall_app in H1 as [_ H1]. inversion H1; subst. congruence.
  - injection E as Ex Ed. subst y d2.
    apply Forall_app in H2 as [_ H2]. inversion H2; subst. congruence.
  - injection E as Ex Ed. subst z. destruct (IH _ Ed) as [-> ->]. auto.
Qed.

Lemma startswith_spec (p s : list N) :
  startswith p s = true <-> exists t, s = p ++ t.
Proof.
  revert s. induction p as [|a p IH]; intros s; simpl.
  - split; eauto.
  - destruct s as [|b s].
    + split; [discriminate|]. intros [t E]. discriminate.
    + unfold char_eqb. rewrite andb_true_iff, N.eqb_eq, IH. split.
      * intros [-> [t ->]]. eauto.
      * intros [t E]. injection E as -> ->. eauto.
Qed.

(** [sub in s] holds exactly when [s] is [pre ++ sub ++ post]. *)
Lemma str_in_spec (sub s : list N) :
  str_in sub s = true <-> exists pre post, s = pre ++ sub ++ post.
Proof.
  induction s as [|c s IH]; simpl; rewrite orb_true_iff, startswith_spec.
  - split.
    + intros [[t E]|F]; [|discriminate]. exists [], t. exact E.
    + intros (pre & post & E). left. destruct pre; simpl in E; [eauto|discriminate].
  - rewrite IH. split.
    + intros [[t E]|(pre & post & E)].
      * exists [], t. exact E.
      * exists (c :: pre), post. simpl. now rewrite E.
    + intros (pre & post & E). destruct pre as [|c' pre]; simpl in E.
      * left. eauto.
      * right. injection E as _ E. eauto.
Qed.

(* ===================================================================== *)
(** ** The loops, step by step *)
(* ===================================================================== *)

Ltac run_monad :=
  unfold mbind, M_bind, mret, M_ret, try_except, lift, raise, index,
    get_seen_titles, get_games, seen_titles_add, games_append, print; simpl.

Section Loops.

Context {U : UnicodeData}.

(** [int] reads the two digits of a match. *)
Lemma re_match_digits (s g : list N) :
  re_match s = Some g ->
  exists d1 d2 v1 v2 rest,
    s = 49 :: 57 :: d1 :: d2 :: rest /\ g = [d1; d2] /\
    decimal d1 = Some v1 /\ decimal d2 = Some v2 /\
    int g = Return (10 * v1 + v2)%Z.
Proof.
  unfold re_match, isdigit, char_eqb.
  destruct s as [|c1 [|c2 [|d1 [|d2 rest]]]]; try discriminate.
  destruct (N.eqb_spec c1 49) as [->|]; [|discriminate].
  destruct (N.eqb_spec c2 57) as [->|]; [|discriminate]. simpl.
  destruct (decimal d1) as [v1|] eqn:E1; [|discriminate].
  destruct (decimal d2) as [v2|] eqn:E2; [|discriminate]. simpl.
  intros [= <-]. exists d1, d2, v1, v2, rest.
  repeat split; auto. simpl. rewrite E1, E2. reflexivity.
Qed.

(** A match is found at some place, and at no place before it. *)
Lemma re_search_first (s g : list N) :
  re_search s = Some g ->
  exists pre post,
    s = pre ++ post /\ re_match post = Some g /\
    forall pre' post', s = pre' ++ post' -> (length pre' < length pre)%nat ->
                       re_match post' = None.
Proof.
  induction s as [|c s IH]; cbn [re_search].
  - destruct (re_match []) eqn:E; [|discriminate]. discriminate E.
  - destruct (re_match (c :: s)) as [g'|] eqn:E.
    + intros [= ->]. exists [], (c :: s). repeat split; auto.
      simpl. intros. lia.
    + intros H. destruct (IH H) as (pre & post & -> & Hm & Hfirst).
      exists (c :: pre), post. repeat split; auto.
      intros [|c' pre'] post' Es Hl; simpl in *.
      * subst post'. exact E.
      * injection Es as -> Es. apply (Hfirst pre'); [exact Es | lia].
Qed.

Lemma re_search_int (s g : list N) :
  re_search s = Some g -> exists y, int g = Return y.
Proof.
  intros H. destruct (re_search_first _ _ H) as (pre & post & _ & Hm & _).
  destruct (re_match_digits _ _ Hm) as (d1 & d2 & v1 & v2 & rest & _ & _ & _ & _ & Hi).
  eauto.
Qed.

(** One row: the body returns, and either leaves the frame as it is or
    emits the record of the row. *)
Lemma row_loop_body_eq (min_year max_year : Z) (current_region : list N)
    (row : node) (f : frame) :
  row_loop_body min_year max_year current_region row f =
  (Return tt,
   match row_record min_year max_year current_region row with
   | Some g => emit g f
   | None => f
   end).
Proof.
  unfold row_loop_body, row_try_suite, row_record.
  destruct (find_all [lit "td"; lit "th"] row) as [|c0 [|c1 [|c2 cells]]];
    run_monad; try reflexivity.
  destruct (str_in (lit "(Unlicensed)") (strip (get_text c0))); [reflexivity|].
  destruct (re_search (strip (get_text c2))) as [g|] eqn:Es; [|reflexivity].
  destruct (re_search_int _ _ Es) as [y Hy]. rewrite Hy.
  destruct ((min_year <=? y)%Z && (y <=? max_year)%Z); [|reflexivity].
  unfold emit, unique_key. simpl.
  destruct (bool_decide _); reflexivity.
Qed.

(** The row loop emits the records of its rows in order. *)
Lemma for_rows_eq (min_year max_year : Z) (current_region : list N)
    (rows : list node) (f : frame) :
  for_ rows (row_loop_body min_year max_year current_region) f =
  (Return tt,
   emit_all (omap (row_record min_year max_year current_region) rows) f).
Proof.
  revert f. induction rows as [|row rows IH]; intros f; simpl; [reflexivity|].
  unfold mbind, M_bind. rewrite row_loop_body_eq, IH.
  destruct (row_record min_year max_year current_region row); reflexivity.
Qed.

Lemma log_nil (f : frame) : log [] f = f.
Proof. destruct f. unfold log. simpl. now rewrite app_nil_r. Qed.

Lemma log_log (l1 l2 : list (list N)) (f : frame) :
  log l2 (log l1 f) = log (l1 ++ l2) f.
Proof. unfold log. simpl. now rewrite app_assoc. Qed.

(** Printing and emitting do not see each other. *)
Lemma emit_log (g : GameRecord) (l : list (list N)) (f : frame) :
  emit g (log l f) = log l (emit g f).
Proof. unfold emit, log. simpl. destruct (bool_decide _); reflexivity. Qed.

Lemma emit_all_log (gs : list GameRecord) (l : list (list N)) (f : frame) :
  emit_all gs (log l f) = log l (emit_all gs f).
Proof.
  revert f. induction gs as [|g gs IH]; intros f; simpl; [reflexivity|].
  unfold emit_all in *. simpl. now rewrite emit_log, IH.
Qed.

Lemma stdout_emit_all (gs : list GameRecord) (f : frame) :
  stdout (emit_all gs f) = stdout f.
Proof.
  revert f. induction gs as [|g gs IH]; intros f; [reflexivity|].
  unfold emit_all in *. simpl. rewrite IH. unfold emit.
  destruct (bool_decide _); reflexivity.
Qed.

Lemma emit_all_app (gs1 gs2 : list GameRecord) (f : frame) :
  emit_all (gs1 ++ gs2) f = emit_all gs2 (emit_all gs1 f).
Proof. unfold emit_all. apply foldl_app. Qed.

(** One table: its line is printed when the heading is accepted, and the
    records of its rows are emitted when the header row is a game header
    too. *)
Lemma table_loop_body_eq (soup : node) (min_year max_year : Z)
    (table : element) (f : frame) :
  table_loop_body soup min_year max_year table f =
  (Return tt,
   log (if region_ok soup table
        then [lit "Processing region: " ++ lit "North America"] else [])
       (emit_all (table_records soup min_year max_year table) f)).
Proof.
  unfold table_loop_body, table_records, region_ok, header_ok, heading_accepted.
  destruct (find_previous _ soup table.1) as [h|]; simpl.
  2: { now rewrite log_nil. }
  destruct (str_in (lit "north america") _); simpl.
  2: { now rewrite log_nil. }
  unfold mbind, M_bind, print. simpl.
  destruct (find [lit "tr"] table.2) as [hr|]; simpl.
  2: { reflexivity. }
  destruct (list_in (lit "title") _ || list_in (lit "game") _); simpl.
  2: { reflexivity. }
  rewrite for_rows_eq. f_equal.
  apply (emit_all_log _ [_] f).
Qed.

(** The table loop over any tables of the soup. *)
Lemma for_tables_eq (soup : node) (min_year max_year : Z)
    (tables : list element) (f : frame) :
  for_ tables (table_loop_body soup min_year max_year) f =
  (Return tt,
   log (flat_map (fun table =>
                    if region_ok soup table
                    then [lit "Processing region: " ++ lit "North America"]
                    else []) tables)
       (emit_all (flat_map (table_records soup min_year max_year) tables) f)).
Proof.
  revert f. induction tables as [|t ts IH]; intros f; simpl.
  - now rewrite log_nil.
  - unfold mbind, M_bind. rewrite table_loop_body_eq, IH.
    now rewrite emit_all_app, emit_all_log, log_log.
Qed.

Variable BeautifulSoup : list N -> list N -> result node.

(** The function on a document a parser accepts: it returns the games of
    the frame in which every candidate was emitted, and has printed one
    line per accepted table. *)
Lemma extract_parsed (html_content : list N) (min_year max_year : Z)
    (out : list (list N)) (soup : node) :
  parsed BeautifulSoup html_content = Return soup ->
  extract_games_from_html BeautifulSoup html_content min_year max_year out =
  (Return (games (emit_all (candidates soup min_year max_year) (entry_frame out))),
   out ++ printed soup).
Proof.
  unfold parsed, extract_games_from_html. run_monad. intros Hp.
  assert (E : (match BeautifulSoup html_content (lit "lxml") with
               | Return a => (Return a, entry_frame out)
               | Raise _ => (BeautifulSoup html_content (lit "html.parser"),
                             entry_frame out)
               end) = (Return soup, entry_frame out)).
  { destruct (BeautifulSoup html_content (lit "lxml")); now rewrite Hp || injection Hp as ->. }
  unfold entry_frame in E. rewrite E. clear E.
  pose proof (for_tables_eq soup min_year max_year
                (soup_find_all [lit "table"] soup) (entry_frame out)) as Ht.
  unfold entry_frame in Ht. rewrite Ht. unfold candidates, printed, log. simpl.
  now rewrite stdout_emit_all.
Qed.

(** The function on a document both parser attempts refuse: the second
    attempt's exception leaves the function. *)
Lemma extract_rejected (html_content : list N) (min_year max_year : Z)
    (out : list (list N)) (e : exn) :
  parsed BeautifulSoup html_content = Raise e ->
  extract_games_from_html BeautifulSoup html_content min_year max_year out =
  (Raise e, out).
Proof.
  unfold parsed, extract_games_from_html. run_monad.
  destruct (BeautifulSoup html_content (lit "lxml")); [discriminate|].
  intros ->. reflexivity.
Qed.

End Loops.

(* ===================================================================== *)
(** ** What emitting keeps *)
(* ===================================================================== *)

Lemma unique_key_triple (g : GameRecord) : unique_key g = key_of_triple (triple g).
Proof. reflexivity. Qed.

(** Two records of one region with one key have one title and one year. *)
Lemma unique_key_inj (g1 g2 : GameRecord) :
  region g1 = region g2 -> unique_key g1 = unique_key g2 -> triple g1 = triple g2.
Proof.
  unfold unique_key, triple. intros Hr E. rewrite Hr in E.
  rewrite !(app_assoc (title _)), !(app_assoc (_ ++ _) (str_of_int _)) in E.
  apply app_inv_tail in E.
  rewrite <- !app_assoc in E.
  change (lit "_") with [underscore] in E. simpl in E.
  apply split_at_last in E; try apply str_of_int_no_underscore.
  destruct E as [Et Ey]. apply str_of_int_inj in Ey. congruence.
Qed.

Lemma keyed_entry (out : list (list N)) : keyed (entry_frame out).
Proof.
  intros k. simpl. split.
  - intros H. exfalso. revert H. apply not_elem_of_empty.
  - intros (g & Hg & _). inversion Hg.
Qed.

Lemma keyed_emit (g : GameRecord) (f : frame) : keyed f -> keyed (emit g f).
Proof.
  unfold keyed, emit. intros Hk k.
  destruct (bool_decide _) eqn:Hd; [|apply Hk]. simpl.
  rewrite elem_of_union, elem_of_singleton, Hk. split.
  - intros [->|(g' & Hg' & E)].
    + exists g. split; [|reflexivity]. apply elem_of_app. right. constructor.
    + exists g'. split; [|exact E]. apply elem_of_app. now left.
  - intros (g' & Hg' & E). apply elem_of_app in Hg' as [Hg'|Hg'].
    + right. eauto.
    + apply list_elem_of_singleton in Hg'. subst g'. now left.
Qed.

Lemma keyed_emit_all (gs : list GameRecord) (f : frame) :
  keyed f -> keyed (emit_all gs f).
Proof.
  revert f. induction gs as [|g gs IH]; intros f Hk; [exact Hk|].
  apply (IH (emit g f)). now apply keyed_emit.
Qed.

(** Emitting never repeats a key. *)
Lemma emit_all_NoDup (gs : list GameRecord) (f : frame) :
  keyed f -> NoDup (map unique_key (games f)) ->
  NoDup (map unique_key (games (emit_all gs f))).
Proof.
  revert f. induction gs as [|g gs IH]; intros f Hk Hn; [exact Hn|].
  apply (IH (emit g f)); [now apply keyed_emit|].
  unfold emit. destruct (bool_decide _) eqn:Hd; [|exact Hn]. simpl.
  apply bool_decide_eq_true in Hd.
  rewrite map_app. simpl. apply NoDup_app. repeat split.
  - exact Hn.
  - intros k Hin Hin'. apply list_elem_of_singleton in Hin'. subst k.
    apply Hd, Hk. apply list_elem_of_fmap in Hin as (g' & E & Hg'). eauto.
  - apply NoDup_singleton.
Qed.

(** What is in [games] after emitting was there before, or is the first
    record met with its key, and that key had not been seen. *)
Lemma emit_all_first (gs : list GameRecord) (f : frame) (g : GameRecord) :
  keyed f -> g ∈ games (emit_all gs f) ->
  g ∈ games f \/
  ((unique_key g ∉ seen_titles f) /\
   exists before after, gs = before ++ g :: after /\
     forall c, c ∈ before -> unique_key c <> unique_key g).
Proof.
  revert f. induction gs as [|c gs IH]; intros f Hk Hin; [now left|].
  change (emit_all (c :: gs) f) with (emit_all gs (emit c f)) in Hin.
  destruct (IH _ (keyed_emit c f Hk) Hin) as [Hold|(Hnew & before & after & -> & Hb)];
    unfold emit in *; destruct (bool_decide _) eqn:Hd; simpl in *.
  - apply elem_of_app in Hold as [Hold|Hold]; [now left|].
    apply list_elem_of_singleton in Hold. subst c. right.
    apply bool_decide_eq_true in Hd. split; [exact Hd|].
    exists [], gs. split; [reflexivity|]. intros c Hc. inversion Hc.
  - now left.
  - right. rewrite not_elem_of_union, not_elem_of_singleton in Hnew.
    destruct Hnew as [Hne Hnew]. split; [exact Hnew|].
    exists (c :: before), after. split; [reflexivity|].
    intros c' Hc'. apply elem_of_cons in Hc' as [Ec|Hc']; [subst c'; congruence|auto].
  - right. apply bool_decide_eq_false in Hd. split; [exact Hnew|].
    exists (c :: before), after. split; [reflexivity|].
    intros c' Hc'. apply elem_of_cons in Hc' as [Ec|Hc']; [subst c'|auto].
    intros E. apply Hnew. rewrite <- E.
    destruct (decide (unique_key c ∈ seen_titles f)); [assumption|contradiction].
Qed.

(** Every key met is seen afterwards. *)
Lemma emit_all_seen (gs : list GameRecord) (f : frame) (k : list N) :
  k ∈ seen_titles f \/ k ∈ map unique_key gs -> k ∈ seen_titles (emit_all gs f).
Proof.
  revert f. induction gs as [|c gs IH]; intros f.
  - intros [H|H]; [exact H|inversion H].
  - intros H. apply (IH (emit c f)). unfold emit.
    destruct (bool_decide _) eqn:Hd; simpl.
    + rewrite elem_of_union, elem_of_singleton.
      destruct H as [H|H]; [auto|]. simpl in H.
      apply elem_of_cons in H as [->|H]; auto.
    + apply bool_decide_eq_false in Hd.
      destruct H as [H|H]; [auto|]. simpl in H.
      apply elem_of_cons in H as [->|H]; [|auto].
      left. destruct (decide (unique_key c ∈ seen_titles f)); [assumption|contradiction].
Qed.

(* ===================================================================== *)
(** ** The records of the rows *)
(* ===================================================================== *)

Section Rows.

Context {U : UnicodeData}.

(** What a row that yields a record looks like. *)
Lemma row_record_inv (min_year max_year : Z) (current_region : list N)
    (row : node) (g : GameRecord) :
  row_record min_year max_year current_region row = Some g ->
  exists c0 c1 c2 rest group1,
    find_all [lit "td"; lit "th"] row = c0 :: c1 :: c2 :: rest /\
    title g = strip (get_text c0) /\
    publisher g = strip (get_text c1) /\
    release_date g = strip (get_text c2) /\
    region g = current_region /\
    str_in (lit "(Unlicensed)") (title g) = false /\
    re_search (release_date g) = Some group1 /\
    int group1 = Return (year g) /\
    (min_year <= year g <= max_year)%Z.
Proof.
  unfold row_record.
  destruct (find_all _ row) as [|c0 [|c1 [|c2 rest]]]; try discriminate.
  destruct (str_in _ (strip (get_text c0))) eqn:Hu; [discriminate|].
  destruct (re_search _) as [group1|] eqn:Hs; [|discriminate].
  destruct (int group1) as [y|] eqn:Hi; [|discriminate].
  destruct ((min_year <=? y)%Z && (y <=? max_year)%Z) eqn:Hr; [|discriminate].
  intros [= <-]. exists c0, c1, c2, rest, group1. simpl.
  apply andb_true_iff in Hr as [H1 H2]. apply Z.leb_le in H1, H2.
  repeat split; auto.
Qed.

(** Where a candidate comes from. *)
Lemma candidates_inv (soup : node) (min_year max_year : Z) (g : GameRecord) :
  g ∈ candidates soup min_year max_year ->
  exists table row,
    table ∈ soup_find_all [lit "table"] soup /\
    region_ok soup table = true /\ header_ok (snd table) = true /\
    row ∈ drop 1 (find_all [lit "tr"] (snd table)) /\
    row_record min_year max_year (lit "North America") row = Some g.
Proof.
  unfold candidates. rewrite list_elem_of_In, in_flat_map.
  intros (table & Ht & Hg). apply list_elem_of_In in Ht, Hg.
  unfold table_records in Hg.
  destruct (region_ok soup table) eqn:Hr; [|inversion Hg].
  destruct (header_ok table.2) eqn:Hh; [|inversion Hg]. simpl in Hg.
  apply list_elem_of_omap in Hg as (row & Hrow & Hrec).
  exists table, row. auto.
Qed.

(** What the function returns is made of candidates. *)
Lemma emitted_candidate (cs : list GameRecord) (out : list (list N))
    (g : GameRecord) :
  g ∈ games (emit_all cs (entry_frame out)) -> g ∈ cs.
Proof.
  intros H. apply emit_all_first in H; [|apply keyed_entry].
  destruct H as [H|(_ & before & after & -> & _)]; [inversion H|].
  apply elem_of_app. right. constructor.
Qed.

Lemma candidates_region (soup : node) (min_year max_year : Z) (g : GameRecord) :
  g ∈ candidates soup min_year max_year -> region g = lit "North America".
Proof.
  intros H. apply candidates_inv in H as (table & row & _ & _ & _ & _ & Hrec).
  apply row_record_inv in Hrec as (? & ? & ? & ? & ? & _ & _ & _ & _ & Hr & _).
  exact Hr.
Qed.

(** A text in which [re.search] finds the pattern has it somewhere. *)
Lemma re_search_year_at (s g : list N) :
  re_search s = Some g ->
  exists i y, int g = Return y /\ year_at s i y /\
              forall j v, (j < i)%nat -> ~ year_at s j v.
Proof.
  intros H. destruct (re_search_first _ _ H) as (pre & post & -> & Hm & Hfirst).
  destruct (re_match_digits _ _ Hm)
    as (d1 & d2 & v1 & v2 & rest & -> & -> & Hd1 & Hd2 & Hi).
  exists (length pre), (10 * v1 + v2)%Z. split; [exact Hi|]. split.
  - exists pre, d1, d2, rest, v1, v2. auto.
  - intros j v Hj (pre' & e1 & e2 & post' & w1 & w2 & E & Hl & He1 & He2 & _).
    subst j. specialize (Hfirst _ _ E Hj).
    unfold re_match, isdigit, char_eqb in Hfirst. simpl in Hfirst.
    rewrite He1, He2 in Hfirst. discriminate.
Qed.

End Rows.

(* ===================================================================== *)
(** ** Properties of the extraction *)
(* ===================================================================== *)

Section Properties.

Context {U : UnicodeData}.
Variable BeautifulSoup : list N -> list N -> result node.

(** A text that has the pattern somewhere is matched by [re.search]. *)
Lemma year_at_re_search (s : list N) (i : nat) (v : Z) :
  year_at s i v -> exists g, re_search s = Some g.
Proof.
  intros (pre & d1 & d2 & post & v1 & v2 & -> & _ & Hd1 & Hd2 & _).
  induction pre as [|c pre IH]; cbn [re_search app].
  - unfold re_match, isdigit, char_eqb. simpl. rewrite Hd1, Hd2. eauto.
  - destruct (re_match (c :: pre ++ _)); eauto.
Qed.

(** No candidate when the bounds are inverted. *)
Lemma candidates_inverted (soup : node) (min_year max_year : Z) :
  (max_year < min_year)%Z -> candidates soup min_year max_year = [].
Proof.
  intros Hlt. destruct (candidates soup min_year max_year) as [|g l] eqn:E; [reflexivity|].
  assert (Hg : g ∈ candidates soup min_year max_year) by (rewrite E; constructor).
  apply candidates_inv in Hg as (table & row & _ & _ & _ & _ & Hrec).
  apply row_record_inv in Hrec as (? & ? & ? & ? & ? & _ & _ & _ & _ & _ & _ & _ & _ & Hr).
  lia.
Qed.

(** C1. The list returned has pairwise distinct (title, year, region)
    triples; each record in it is the record of the first row met with its
    triple, publisher included; and every triple met is in the list, so
    that only duplicates are dropped. *)
Theorem dedup_first_occurrence (html_content : list N) (min_year max_year : Z)
    (out : list (list N)) (soup : node) :
  parsed BeautifulSoup html_content = Return soup ->
  exists gs,
    extract_games_from_html BeautifulSoup html_content min_year max_year out =
      (Return gs, out ++ printed soup) /\
    NoDup (map triple gs) /\
    (forall g, g ∈ gs ->
       exists before after,
         candidates soup min_year max_year = before ++ g :: after /\
         forall c, c ∈ before -> triple c <> triple g) /\
    (forall c, c ∈ candidates soup min_year max_year ->
       exists g, g ∈ gs /\ triple g = triple c).
Proof.
  intros Hp. eexists. split; [apply extract_parsed, Hp|].
  set (cs := candidates soup min_year max_year).
  pose proof (keyed_entry out) as Hk.
  split; [|split].
  - apply (NoDup_fmap_1 key_of_triple).
    change (key_of_triple <$> map triple ?l) with (map key_of_triple (map triple l)).
    rewrite map_map.
    apply (emit_all_NoDup cs (entry_frame out) Hk). constructor.
  - intros g Hg. apply emit_all_first in Hg; [|exact Hk].
    destruct Hg as [Hg|(_ & before & after & E & Hb)]; [inversion Hg|].
    exists before, after. split; [exact E|].
    intros c Hc Et. apply (Hb c Hc). now rewrite !unique_key_triple, Et.
  - intros c Hc.
    assert (Hs : unique_key c ∈ seen_titles (emit_all cs (entry_frame out))).
    { apply emit_all_seen. right. apply list_elem_of_fmap. eauto. }
    apply (keyed_emit_all cs _ Hk) in Hs as (g & Hg & Ek).
    exists g. split; [exact Hg|].
    apply unique_key_inj; [|exact Ek].
    apply emitted_candidate in Hg.
    now rewrite (candidates_region _ _ _ _ Hg), (candidates_region _ _ _ _ Hc).
Qed.

(** C3. Every record returned has [min_year <= year <= max_year], both
    ends included; a row whose date gives a year outside the bounds is
    passed over and leaves [games] and [seen_titles] as they were. *)
Theorem year_range_invariant :
  (forall (html_content : list N) (min_year max_year : Z) (out : list (list N))
          (soup : node),
     parsed BeautifulSoup html_content = Return soup ->
     exists gs,
       extract_games_from_html BeautifulSoup html_content min_year max_year out =
         (Return gs, out ++ printed soup) /\
       forall g, g ∈ gs -> (min_year <= year g <= max_year)%Z) /\
  (forall (min_year max_year : Z) (current_region : list N) (row c0 c1 c2 : node)
          (rest : list node) (group1 : list N) (y : Z) (f : frame),
     find_all [lit "td"; lit "th"] row = c0 :: c1 :: c2 :: rest ->
     re_search (strip (get_text c2)) = Some group1 ->
     int group1 = Return y ->
     ~ (min_year <= y <= max_year)%Z ->
     row_loop_body min_year max_year current_region row f = (Return tt, f)).
Proof.
  split.
  - intros html_content min_year max_year out soup Hp.
    eexists. split; [apply extract_parsed, Hp|].
    intros g Hg. apply emitted_candidate, candidates_inv in Hg
      as (table & row & _ & _ & _ & _ & Hrec).
    apply row_record_inv in Hrec
      as (? & ? & ? & ? & ? & _ & _ & _ & _ & _ & _ & _ & _ & Hr).
    exact Hr.
  - intros min_year max_year current_region row c0 c1 c2 rest group1 y f Hc Hs Hi Hr.
    rewrite row_loop_body_eq. unfold row_record. rewrite Hc, Hs, Hi.
    destruct (str_in _ _); [reflexivity|].
    destruct ((min_year <=? y)%Z && (y <=? max_year)%Z) eqn:E; [|reflexivity].
    apply andb_true_iff in E as [H1 H2]. apply Z.leb_le in H1, H2. lia.
Qed.

(** C6. No record returned has "(Unlicensed)" in its title; a row whose
    first cell, stripped, has it is passed over and leaves [games] and
    [seen_titles] as they were. *)
Theorem unlicensed_excluded :
  (forall (html_content : list N) (min_year max_year : Z) (out : list (list N))
          (soup : node),
     parsed BeautifulSoup html_content = Return soup ->
     exists gs,
       extract_games_from_html BeautifulSoup html_content min_year max_year out =
         (Return gs, out ++ printed soup) /\
       forall g, g ∈ gs ->
         ~ exists pre post, title g = pre ++ lit "(Unlicensed)" ++ post) /\
  (forall (min_year max_year : Z) (current_region : list N) (row c0 : node)
          (rest : list node) (f : frame),
     find_all [lit "td"; lit "th"] row = c0 :: rest ->
     (exists pre post, strip (get_text c0) = pre ++ lit "(Unlicensed)" ++ post) ->
     row_loop_body min_year max_year current_region row f = (Return tt, f)).
Proof.
  split.
  - intros html_content min_year max_year out soup Hp.
    eexists. split; [apply extract_parsed, Hp|].
    intros g Hg. apply emitted_candidate, candidates_inv in Hg
      as (table & row & _ & _ & _ & _ & Hrec).
    apply row_record_inv in Hrec
      as (? & ? & ? & ? & ? & _ & _ & _ & _ & _ & Hu & _).
    intros Hin. apply str_in_spec in Hin. congruence.
  - intros min_year max_year current_region row c0 rest f Hc Hin.
    apply str_in_spec in Hin.
    rewrite row_loop_body_eq. unfold row_record. rewrite Hc, Hin.
    destruct rest as [|c1 [|c2 rest]]; reflexivity.
Qed.

(** C9. With [min_year > max_year] the function returns the empty list on
    every document that one of the two parser attempts accepts.  On a
    document that both attempts refuse it returns no list: the exception of
    the second attempt is raised, whatever the bounds are. *)
Theorem inverted_range_empty (html_content : list N) (min_year max_year : Z)
    (out : list (list N)) :
  (min_year > max_year)%Z ->
  (forall soup, parsed BeautifulSoup html_content = Return soup ->
     extract_games_from_html BeautifulSoup html_content min_year max_year out =
       (Return [], out ++ printed soup)) /\
  (forall e, parsed BeautifulSoup html_content = Raise e ->
     extract_games_from_html BeautifulSoup html_content min_year max_year out =
       (Raise e, out)).
Proof.
  intros Hgt. split.
  - intros soup Hp. rewrite (extract_parsed _ _ _ _ _ soup Hp).
    rewrite candidates_inverted by lia. reflexivity.
  - intros e Hp. now apply extract_rejected.
Qed.

(** C4. The release date of every record returned reads "19" and two
    decimal digits somewhere, and the year of the record is the value of
    the two digits at the first such place; a row whose date reads
    that nowhere is passed over.  The year of a record is an integer, there
    is no record without one. *)
Theorem year_from_release_date :
  (forall (html_content : list N) (min_year max_year : Z) (out : list (list N))
          (soup : node),
     parsed BeautifulSoup html_content = Return soup ->
     exists gs,
       extract_games_from_html BeautifulSoup html_content min_year max_year out =
         (Return gs, out ++ printed soup) /\
       forall g, g ∈ gs ->
         exists i, year_at (release_date g) i (year g) /\
                   forall j v, (j < i)%nat -> ~ year_at (release_date g) j v) /\
  (forall (min_year max_year : Z) (current_region : list N) (row c0 c1 c2 : node)
          (rest : list node) (f : frame),
     find_all [lit "td"; lit "th"] row = c0 :: c1 :: c2 :: rest ->
     (forall i v, ~ year_at (strip (get_text c2)) i v) ->
     row_loop_body min_year max_year current_region row f = (Return tt, f)).
Proof.
  split.
  - intros html_content min_year max_year out soup Hp.
    eexists. split; [apply extract_parsed, Hp|].
    intros g Hg. apply emitted_candidate, candidates_inv in Hg
      as (table & row & _ & _ & _ & _ & Hrec).
    apply row_record_inv in Hrec
      as (? & ? & ? & ? & group1 & _ & _ & _ & _ & _ & _ & Hs & Hi & _).
    destruct (re_search_year_at _ _ Hs) as (i & y & Hy & Hat & Hfirst).
    rewrite Hi in Hy. injection Hy as <-. eauto.
  - intros min_year max_year current_region row c0 c1 c2 rest f Hc Hno.
    rewrite row_loop_body_eq. unfold row_record. rewrite Hc.
    destruct (str_in _ _); [reflexivity|].
    destruct (re_search (strip (get_text c2))) as [g|] eqn:Hs; [|reflexivity].
    destruct (re_search_year_at _ _ Hs) as (i & y & _ & Hat & _).
    destruct (Hno _ _ Hat).
Qed.

End Properties.

(* ===================================================================== *)
(** ** Headings, faults and repeated runs *)
(* ===================================================================== *)

Section Boundary.

Context {U : UnicodeData}.
Variable BeautifulSoup : list N -> list N -> result node.

Lemma filter_none {A} (p : A -> bool) (l : list A) :
  (forall x, x ∈ l -> p x = false) -> List.filter p l = [].
Proof.
  induction l as [|x l IH]; intros H; simpl; [reflexivity|].
  rewrite (H x) by constructor. apply IH. intros y Hy. apply H. now constructor.
Qed.

(** The heading found is the last h2 or h3 before the place, whatever
    comes after it. *)
Lemma find_previous_last (names : list (list N)) (soup : node) (i : nat)
    (before between : list node) (h : node) :
  take i (descendants soup) = before ++ h :: between ->
  named names h = true ->
  (forall n, n ∈ between -> named names n = false) ->
  find_previous names soup i = Some h.
Proof.
  intros E Hh Hb. unfold find_previous. rewrite E, List.filter_app. simpl.
  rewrite Hh, (filter_none _ _ Hb). apply last_snoc.
Qed.


(** C10. Only h2 and h3 tags are consulted.  The heading found for a table
    is an h2 or h3 tag; a table with no h2 and no h3 before it is passed
    over, whatever other elements come before it; and when the last h2 or
    h3 before the table is [h], elements between [h] and the table that
    are neither h2 nor h3 do not change what the table is taken for. *)
Theorem heading_levels :
  (forall (soup : node) (i : nat) (h : node),
     find_previous [lit "h2"; lit "h3"] soup i = Some h ->
     exists name contents,
       h = Tag name contents /\ (name = lit "h2" \/ name = lit "h3")) /\
  (forall (soup : node) (min_year max_year : Z) (table : element) (f : frame),
     (forall n, n ∈ take (fst table) (descendants soup) ->
                named [lit "h2"; lit "h3"] n = false) ->
     table_loop_body soup min_year max_year table f = (Return tt, f)) /\
  (forall (soup : node) (table : element) (before between : list node) (h : node),
     take (fst table) (descendants soup) = before ++ h :: between ->
     named [lit "h2"; lit "h3"] h = true ->
     (forall n, n ∈ between -> named [lit "h2"; lit "h3"] n = false) ->
     find_previous [lit "h2"; lit "h3"] soup (fst table) = Some h /\
     region_ok soup table = heading_accepted h).
Proof.
  split; [|split].
  - intros soup i h Hl. unfold find_previous in Hl.
    apply last_Some_elem_of, list_elem_of_In, filter_In in Hl as [_ Hn].
    destruct h as [s|name contents]; [discriminate|].
    exists name, contents. split; [reflexivity|].
    unfold named, list_in, str_eqb in Hn. simpl in Hn.
    rewrite orb_false_r in Hn. apply orb_true_iff in Hn as [Hn|Hn];
      apply bool_decide_eq_true in Hn; auto.
  - intros soup min_year max_year table f Hnone.
    unfold table_loop_body, find_previous.
    now rewrite (filter_none _ _ Hnone).
  - intros soup table before between h E Hh Hb.
    pose proof (find_previous_last _ _ _ _ _ _ E Hh Hb) as Hf.
    split; [exact Hf|]. unfold region_ok. now rewrite Hf.
Qed.

(** C7, as the function has it.  On a document one of the two parser
    attempts accepts the function returns a list; a row with fewer than
    three cells is passed over and the loop goes on with the rows after it;
    the body of the row loop never lets an exception out, and a suite that
    raises [IndexError], [AttributeError] or [ValueError] under its
    [except] clause only ends that row; a document without tables gives
    the empty list.  A document both attempts refuse is not turned into an
    empty list: the exception of the second attempt leaves the function. *)
Theorem skips_without_raising :
  (forall (html_content : list N) (min_year max_year : Z) (out : list (list N))
          (soup : node),
     parsed BeautifulSoup html_content = Return soup ->
     exists gs,
       extract_games_from_html BeautifulSoup html_content min_year max_year out =
         (Return gs, out ++ printed soup)) /\
  (forall (min_year max_year : Z) (current_region : list N) (row : node)
          (rows : list node) (f : frame),
     (length (find_all [lit "td"; lit "th"] row) < 3)%nat ->
     row_loop_body min_year max_year current_region row f = (Return tt, f) /\
     for_ (row :: rows) (row_loop_body min_year max_year current_region) f =
     for_ rows (row_loop_body min_year max_year current_region) f) /\
  (forall (min_year max_year : Z) (current_region : list N) (row : node) (f : frame),
     exists f', row_loop_body min_year max_year current_region row f = (Return tt, f')) /\
  (forall (suite : M unit) (e : exn) (f f' : frame),
     suite f = (Raise e, f') ->
     e = IndexError \/ e = AttributeError \/ e = ValueError ->
     try_except suite row_except_clause f = (Return tt, f')) /\
  (forall (html_content : list N) (min_year max_year : Z) (out : list (list N))
          (soup : node),
     parsed BeautifulSoup html_content = Return soup ->
     soup_find_all [lit "table"] soup = [] ->
     extract_games_from_html BeautifulSoup html_content min_year max_year out =
       (Return [], out)) /\
  (forall (html_content : list N) (min_year max_year : Z) (out : list (list N))
          (e : exn),
     parsed BeautifulSoup html_content = Raise e ->
     extract_games_from_html BeautifulSoup html_content min_year max_year out =
       (Raise e, out)).
Proof.
  repeat split.
  - intros. eexists. now apply extract_parsed.
  - rewrite row_loop_body_eq. unfold row_record.
    destruct (find_all _ row) as [|c0 [|c1 [|c2 rest]]]; simpl in *; auto; lia.
  - simpl. unfold mbind, M_bind. rewrite row_loop_body_eq. unfold row_record.
    destruct (find_all _ row) as [|c0 [|c1 [|c2 rest]]]; simpl in *; auto; lia.
  - intros. rewrite row_loop_body_eq. eauto.
  - intros suite e f f' Hs He. unfold try_except, row_except_clause. rewrite Hs.
    destruct He as [-> | [-> | ->] ]; reflexivity.
  - intros html_content min_year max_year out soup Hp Hnone.
    rewrite (extract_parsed _ _ _ _ _ soup Hp).
    unfold candidates, printed. rewrite Hnone. simpl. now rewrite app_nil_r.
  - intros. now apply extract_rejected.
Qed.

(** The list returned does not depend on what was printed before. *)
Lemma extract_any_stdout (html_content : list N) (min_year max_year : Z)
    (out1 out2 : list (list N)) :
  fst (extract_games_from_html BeautifulSoup html_content min_year max_year out1) =
  fst (extract_games_from_html BeautifulSoup html_content min_year max_year out2).
Proof.
  destruct (parsed BeautifulSoup html_content) as [soup|e] eqn:Hp.
  - rewrite !(extract_parsed _ _ _ _ _ soup Hp). simpl. f_equal.
    change (entry_frame out1) with (log out1 (entry_frame [])).
    change (entry_frame out2) with (log out2 (entry_frame [])).
    now rewrite !emit_all_log.
  - now rewrite !(extract_rejected _ _ _ _ _ e Hp).
Qed.

(** C8. A second run on the same text with the same bounds, started after
    the first, gives what the first gave: the same records in the same
    order, or the same exception; and so do two runs started anywhere. *)
Theorem idempotence (html_content : list N) (min_year max_year : Z)
    (out : list (list N)) :
  let first_run :=
    extract_games_from_html BeautifulSoup html_content min_year max_year out in
  let second_run :=
    extract_games_from_html BeautifulSoup html_content min_year max_year
                            (snd first_run) in
  fst second_run = fst first_run /\
  forall out', fst (extract_games_from_html BeautifulSoup html_content
                      min_year max_year out') = fst first_run.
Proof.
  simpl. split; [|intros out']; apply extract_any_stdout.
Qed.

End Boundary.

(* ===================================================================== *)
(** ** ASCII texts *)
(* ===================================================================== *)

(** On ASCII text the Unicode tables are the ASCII ones, whatever the rest
    of the database is. *)
Section Ascii.

Context {U : UnicodeData}.

Lemma isascii_cons (c : N) (s : list N) :
  isascii (c :: s) = true -> c < 128 /\ isascii s = true.
Proof.
  unfold isascii. simpl. intros H. apply andb_true_iff in H as [H1 H2].
  apply N.ltb_lt in H1. auto.
Qed.

Lemma decimal_ascii_only (c : N) :
  c < 128 -> @decimal U c = @decimal ascii_only c.
Proof. intros H. now rewrite decimal_ascii. Qed.

Lemma re_match_ascii_only (s : list N) :
  isascii s = true -> @re_match U s = @re_match ascii_only s.
Proof.
  destruct s as [|c1 [|c2 [|d1 [|d2 rest]]]]; try reflexivity.
  intros H. apply isascii_cons in H as [_ H]. apply isascii_cons in H as [_ H].
  apply isascii_cons in H as [H1 H]. apply isascii_cons in H as [H2 _].
  unfold re_match, isdigit. now rewrite !decimal_ascii_only.
Qed.

Lemma re_search_ascii_only (s : list N) :
  isascii s = true -> @re_search U s = @re_search ascii_only s.
Proof.
  induction s as [|c s IH]; intros H; cbn [re_search]; rewrite re_match_ascii_only by exact H.
  - reflexivity.
  - apply isascii_cons in H as [_ H]. now rewrite IH.
Qed.

Lemma int_digits_ascii_only (s : list N) (acc : Z) :
  isascii s = true -> @int_digits U acc s = @int_digits ascii_only acc s.
Proof.
  revert acc. induction s as [|c s IH]; intros acc H; [reflexivity|].
  apply isascii_cons in H as [Hc H]. cbn [int_digits].
  rewrite decimal_ascii_only by exact Hc.
  destruct (@decimal ascii_only c); [now apply IH|reflexivity].
Qed.

Lemma int_ascii_only (s : list N) :
  isascii s = true -> @int U s = @int ascii_only s.
Proof.
  intros H. destruct s; [reflexivity|]. unfold int. now apply int_digits_ascii_only.
Qed.

(** The record of a row from the texts of its three cells, when the date
    is ASCII text. *)
Lemma row_record_of_texts (min_year max_year : Z) (current_region : list N)
    (row : node) (a b c group1 : list N) (y : Z) :
  map get_text (find_all [lit "td"; lit "th"] row) = [a; b; c] ->
  str_in (lit "(Unlicensed)") (strip a) = false ->
  isascii (strip c) = true ->
  @re_search ascii_only (strip c) = Some group1 ->
  isascii group1 = true ->
  @int ascii_only group1 = Return y ->
  ((min_year <=? y) && (y <=? max_year))%Z = true ->
  row_record min_year max_year current_region row =
  Some {| title := strip a; publisher := strip b; year := y;
          release_date := strip c; region := current_region |}.
Proof.
  intros Ht Hu Ha Hs Hg Hi Hr. unfold row_record.
  destruct (find_all _ row) as [|c0 [|c1 [|c2 [|c3 rest]]]]; try discriminate.
  injection Ht as -> -> ->.
  rewrite Hu, (re_search_ascii_only _ Ha), Hs, (int_ascii_only _ Hg), Hi, Hr.
  reflexivity.
Qed.

(** A heading or a header cell that reads [text], ASCII, is taken for the
    lower-cased [text]. *)
Lemma lower_strip_ascii (text : list N) :
  isascii (strip text) = true ->
  lower (strip text) = map ascii_lower (strip text).
Proof. apply lower_ascii. Qed.

End Ascii.

(* ===================================================================== *)
(** ** The first scenario *)
(* ===================================================================== *)

Section Scenario.

Context {U : UnicodeData}.
Variable BeautifulSoup : list N -> list N -> result node.

(** C2. A document with one table, whose previous heading reads "North
    America", whose header row has a "Title" cell and whose two other rows
    read Super Mario Bros. / Nintendo / September 13, 1985 and The Legend
    of Zelda / Nintendo / February 21, 1986: with the default bounds the
    function returns the two records of years 85 and 86, region "North
    America", in row order. *)
Theorem scenario_north_america (html_content : list N) (out : list (list N))
    (soup : node) (i : nat) (table prev_heading header_row row1 row2 title_cell : node) :
  parsed BeautifulSoup html_content = Return soup ->
  soup_find_all [lit "table"] soup = [(i, table)] ->
  find_previous [lit "h2"; lit "h3"] soup i = Some prev_heading ->
  get_text prev_heading = lit "North America" ->
  find_all [lit "tr"] table = [header_row; row1; row2] ->
  title_cell ∈ find_all [lit "th"; lit "td"] header_row ->
  get_text title_cell = lit "Title" ->
  map get_text (find_all [lit "td"; lit "th"] row1) =
    [lit "Super Mario Bros."; lit "Nintendo"; lit "September 13, 1985"] ->
  map get_text (find_all [lit "td"; lit "th"] row2) =
    [lit "The Legend of Zelda"; lit "Nintendo"; lit "February 21, 1986"] ->
  extract_games_from_html BeautifulSoup html_content
      default_min_year default_max_year out =
    (Return [super_mario_bros; the_legend_of_zelda],
     out ++ [lit "Processing region: North America"]).
Proof.
  intros Hp Htables Hprev Hhead Hrows Hcell Htitle Hrow1 Hrow2.
  rewrite (extract_parsed _ _ _ _ _ soup Hp).
  assert (Hregion : region_ok soup (i, table) = true).
  { unfold region_ok, heading_accepted. simpl. rewrite Hprev, Hhead.
    rewrite lower_strip_ascii by (vm_compute; reflexivity).
    vm_compute. reflexivity. }
  assert (Hheader : header_ok table = true).
  { unfold header_ok, find. rewrite Hrows. simpl.
    apply orb_true_iff. left. unfold list_in. apply existsb_exists.
    exists (lit "title"). split.
    - apply in_map_iff. exists title_cell. split; [|now apply list_elem_of_In].
      rewrite Htitle, lower_strip_ascii by (vm_compute; reflexivity).
      vm_compute. reflexivity.
    - unfold str_eqb. now apply bool_decide_eq_true. }
  assert (H1 : row_record default_min_year default_max_year (lit "North America") row1
               = Some super_mario_bros).
  { now apply (row_record_of_texts _ _ _ _ _ _ _ [56; 53] 85%Z Hrow1). }
  assert (H2 : row_record default_min_year default_max_year (lit "North America") row2
               = Some the_legend_of_zelda).
  { now apply (row_record_of_texts _ _ _ _ _ _ _ [56; 54] 86%Z Hrow2). }
  unfold candidates, printed, table_records. rewrite Htables. simpl.
  rewrite Hregion, Hheader, Hrows. simpl. rewrite H1, H2. simpl.
  reflexivity.
Qed.

End Scenario.

(* ===================================================================== *)
(** ** The scenarios of the specification, run *)
(* ===================================================================== *)

(** Scenarios B, C, D and F: of the seven rows only the first Super Mario
    Bros. row and the Zelda row give a record. *)
Example scenario_mixed_run :
  @extract_games_from_html ascii_only (parser_giving scenario_mixed)
    (markup_of scenario_mixed) default_min_year default_max_year [] =
  (Return [super_mario_bros; the_legend_of_zelda],
   [lit "Processing region: North America"]).
Proof. vm_compute. reflexivity. Qed.

(** Scenario E. *)
Example scenario_e_run :
  @extract_games_from_html ascii_only (parser_giving scenario_e)
    (markup_of scenario_e) default_min_year default_max_year [] =
  (Return [], []).
Proof. vm_compute. reflexivity. Qed.

Example only_h1_run :
  @extract_games_from_html ascii_only (parser_giving only_h1)
    (markup_of only_h1) default_min_year default_max_year [] =
  (Return [], []).
Proof. vm_compute. reflexivity. Qed.

Example h4_between_run :
  @extract_games_from_html ascii_only (parser_giving h4_between)
    (markup_of h4_between) default_min_year default_max_year [] =
  (Return [super_mario_bros], [lit "Processing region: North America"]).
Proof. vm_compute. reflexivity. Qed.

(** The theorems above at these documents. *)

Lemma dedup_first_occurrence_witness :
  parsed (parser_giving scenario_mixed) (markup_of scenario_mixed)
    = Return scenario_mixed /\
  exists gs,
    @extract_games_from_html ascii_only (parser_giving scenario_mixed)
      (markup_of scenario_mixed) 85 95 [] =
      (Return gs, [] ++ @printed ascii_only scenario_mixed) /\
    NoDup (map triple gs) /\
    (forall g, g ∈ gs ->
       exists before after,
         @candidates ascii_only scenario_mixed 85 95 = before ++ g :: after /\
         forall c, c ∈ before -> triple c <> triple g) /\
    (forall c, c ∈ @candidates ascii_only scenario_mixed 85 95 ->
       exists g, g ∈ gs /\ triple g = triple c).
Proof.
  split; [reflexivity|].
  apply (@dedup_first_occurrence ascii_only (parser_giving scenario_mixed)).
  reflexivity.
Defined.

Lemma scenario_north_america_witness :
  @extract_games_from_html ascii_only (parser_giving scenario_a)
    (markup_of scenario_a) default_min_year default_max_year [] =
  (Return [super_mario_bros; the_legend_of_zelda],
   [] ++ [lit "Processing region: North America"]).
Proof.
  apply (@scenario_north_america ascii_only (parser_giving scenario_a)
           (markup_of scenario_a) [] scenario_a 2
           (table_of [mario_row; zelda_row]) (text_tag "h2" "North America")
           (Tag (lit "tr") (map (text_tag "th")
                                ["Title"; "Publisher"; "Release Date"]%string))
           (tr_of mario_row) (tr_of zelda_row) (text_tag "th" "Title"));
    try (vm_compute; reflexivity).
  apply list_elem_of_In. vm_compute. auto.
Defined.

Lemma year_range_invariant_witness :
  (parsed (parser_giving scenario_mixed) (markup_of scenario_mixed)
     = Return scenario_mixed /\
   exists gs,
     @extract_games_from_html ascii_only (parser_giving scenario_mixed)
       (markup_of scenario_mixed) 85 95 [] =
       (Return gs, [] ++ @printed ascii_only scenario_mixed) /\
     forall g, g ∈ gs -> (85 <= year g <= 95)%Z) /\
  (~ (85 <= 96 <= 95)%Z /\
   @row_loop_body ascii_only 85 95 (lit "North America")
     (tr_of ["Late Game"; "Acme"; "June 1996"]%string) fresh = (Return tt, fresh)).
Proof.
  split; (split; [try reflexivity; lia|]).
  - apply (proj1 (@year_range_invariant ascii_only
                    (parser_giving scenario_mixed))). reflexivity.
  - apply (proj2 (@year_range_invariant ascii_only (parser_giving scenario_mixed))
             85%Z 95%Z (lit "North America")
             (tr_of ["Late Game"; "Acme"; "June 1996"]%string)
             (text_tag "td" "Late Game") (text_tag "td" "Acme")
             (text_tag "td" "June 1996") [] [57; 54] 96%Z fresh);
      try (vm_compute; reflexivity). lia.
Defined.

Lemma year_from_release_date_witness :
  (parsed (parser_giving scenario_mixed) (markup_of scenario_mixed)
     = Return scenario_mixed /\
   exists gs,
     @extract_games_from_html ascii_only (parser_giving scenario_mixed)
       (markup_of scenario_mixed) 85 95 [] =
       (Return gs, [] ++ @printed ascii_only scenario_mixed) /\
     forall g, g ∈ gs ->
       exists i, @year_at ascii_only (release_date g) i (year g) /\
                 forall j v, (j < i)%nat -> ~ @year_at ascii_only (release_date g) j v) /\
  ((forall i v, ~ @year_at ascii_only (strip (lit "Unknown")) i v) /\
   @row_loop_body ascii_only 85 95 (lit "North America")
     (tr_of ["Mystery"; "Acme"; "Unknown"]%string) fresh = (Return tt, fresh)).
Proof.
  assert (Hno : forall i v, ~ @year_at ascii_only (strip (lit "Unknown")) i v).
  { intros i v H. apply (@year_at_re_search ascii_only) in H as [g H].
    vm_compute in H. discriminate. }
  split; (split; [try reflexivity; exact Hno|]).
  - apply (proj1 (@year_from_release_date ascii_only
                    (parser_giving scenario_mixed))). reflexivity.
  - apply (proj2 (@year_from_release_date ascii_only (parser_giving scenario_mixed))
             85%Z 95%Z (lit "North America")
             (tr_of ["Mystery"; "Acme"; "Unknown"]%string)
             (text_tag "td" "Mystery") (text_tag "td" "Acme")
             (text_tag "td" "Unknown") [] fresh);
      [vm_compute; reflexivity | exact Hno].
Defined.


Lemma unlicensed_excluded_witness :
  (parsed (parser_giving scenario_mixed) (markup_of scenario_mixed)
     = Return scenario_mixed /\
   exists gs,
     @extract_games_from_html ascii_only (parser_giving scenario_mixed)
       (markup_of scenario_mixed) 85 95 [] =
       (Return gs, [] ++ @printed ascii_only scenario_mixed) /\
     forall g, g ∈ gs ->
       ~ exists pre post, title g = pre ++ lit "(Unlicensed)" ++ post) /\
  ((exists pre post,
      strip (get_text (text_tag "td" "Bad Game (Unlicensed)"))
      = pre ++ lit "(Unlicensed)" ++ post) /\
   @row_loop_body ascii_only 85 95 (lit "North America")
     (tr_of ["Bad Game (Unlicensed)"; "Acme"; "1990"]%string) fresh
   = (Return tt, fresh)).
Proof.
  assert (Hin : exists pre post,
             strip (get_text (text_tag "td" "Bad Game (Unlicensed)"))
             = pre ++ lit "(Unlicensed)" ++ post).
  { exists (lit "Bad Game "), []. vm_compute. reflexivity. }
  split; (split; [try reflexivity; exact Hin|]).
  - apply (proj1 (@unlicensed_excluded ascii_only
                    (parser_giving scenario_mixed))). reflexivity.
  - apply (proj2 (@unlicensed_excluded ascii_only (parser_giving scenario_mixed))
             85%Z 95%Z (lit "North America")
             (tr_of ["Bad Game (Unlicensed)"; "Acme"; "1990"]%string)
             (text_tag "td" "Bad Game (Unlicensed)")
             [text_tag "td" "Acme"; text_tag "td" "1990"] fresh);
      [vm_compute; reflexivity | exact Hin].
Defined.

Lemma inverted_range_empty_witness :
  (95 > 85)%Z /\
  parsed (parser_giving scenario_a) (markup_of scenario_a) = Return scenario_a /\
  @extract_games_from_html ascii_only (parser_giving scenario_a)
    (markup_of scenario_a) 95 85 [] =
  (Return [], [] ++ @printed ascii_only scenario_a).
Proof.
  split; [lia|]. split; [reflexivity|].
  apply (proj1 (@inverted_range_empty ascii_only (parser_giving scenario_a)
                  (markup_of scenario_a) 95%Z 85%Z [] ltac:(lia)));
    reflexivity.
Defined.

Lemma heading_levels_witness :
  (find_previous [lit "h2"; lit "h3"] h4_between 4
     = Some (text_tag "h2" "North America") /\
   exists name contents,
     text_tag "h2" "North America" = Tag name contents /\
     (name = lit "h2" \/ name = lit "h3")) /\
  ((forall n, n ∈ take 2 (descendants only_h1) ->
              named [lit "h2"; lit "h3"] n = false) /\
   @table_loop_body ascii_only only_h1 85 95 (2%nat, table_of [mario_row]) fresh
   = (Return tt, fresh)) /\
  (take 4 (descendants h4_between)
     = [] ++ text_tag "h2" "North America"
          :: [NavigableString (lit "North America"); text_tag "h4" "Japan";
              NavigableString (lit "Japan")] /\
   named [lit "h2"; lit "h3"] (text_tag "h2" "North America") = true /\
   (forall n, n ∈ [NavigableString (lit "North America"); text_tag "h4" "Japan";
                   NavigableString (lit "Japan")] ->
              named [lit "h2"; lit "h3"] n = false) /\
   find_previous [lit "h2"; lit "h3"] h4_between 4
     = Some (text_tag "h2" "North America") /\
   @region_ok ascii_only h4_between (4%nat, table_of [mario_row])
     = @heading_accepted ascii_only (text_tag "h2" "North America")).
Proof.
  assert (H1 : forall n, n ∈ take 2 (descendants only_h1) ->
                         named [lit "h2"; lit "h3"] n = false).
  { intros n Hn. apply list_elem_of_In in Hn. vm_compute in Hn.
    destruct Hn as [<-|[<-|[]]]; vm_compute; reflexivity. }
  assert (H2 : forall n, n ∈ [NavigableString (lit "North America");
                              text_tag "h4" "Japan"; NavigableString (lit "Japan")] ->
                         named [lit "h2"; lit "h3"] n = false).
  { intros n Hn. apply list_elem_of_In in Hn. simpl in Hn.
    destruct Hn as [<-|[<-|[<-|[]]]]; vm_compute; reflexivity. }
  pose proof (@heading_levels ascii_only) as (Ha & Hb & Hc).
  split; [|split].
  - split; [vm_compute; reflexivity|].
    apply (Ha h4_between 4%nat). vm_compute. reflexivity.
  - split; [exact H1|]. apply (Hb only_h1 85%Z 95%Z (2%nat, _) fresh H1).
  - split; [vm_compute; reflexivity|]. split; [vm_compute; reflexivity|].
    split; [exact H2|].
    apply (Hc h4_between (4%nat, table_of [mario_row]) []
              [NavigableString (lit "North America"); text_tag "h4" "Japan";
               NavigableString (lit "Japan")]);
      [vm_compute; reflexivity | vm_compute; reflexivity | exact H2].
Defined.

Lemma skips_without_raising_witness :
  (parsed (parser_giving scenario_mixed) (markup_of scenario_mixed)
     = Return scenario_mixed /\
   exists gs,
     @extract_games_from_html ascii_only (parser_giving scenario_mixed)
       (markup_of scenario_mixed) 85 95 [] =
       (Return gs, [] ++ @printed ascii_only scenario_mixed)) /\
  ((length (find_all [lit "td"; lit "th"] (tr_of ["Short"; "1990"]%string)) < 3)%nat /\
   @row_loop_body ascii_only 85 95 (lit "North America")
     (tr_of ["Short"; "1990"]%string) fresh = (Return tt, fresh) /\
   for_ (tr_of ["Short"; "1990"]%string :: [tr_of zelda_row])
        (@row_loop_body ascii_only 85 95 (lit "North America")) fresh =
   for_ [tr_of zelda_row]
        (@row_loop_body ascii_only 85 95 (lit "North America")) fresh) /\
  ((raise IndexError : M unit) fresh = (Raise IndexError, fresh) /\
   try_except (raise IndexError) row_except_clause fresh = (Return tt, fresh)) /\
  (parsed (parser_giving empty_soup) (markup_of empty_soup) = Return empty_soup /\
   soup_find_all [lit "table"] empty_soup = [] /\
   @extract_games_from_html ascii_only (parser_giving empty_soup)
     (markup_of empty_soup) 85 95 [] = (Return [], [])) /\
  (parsed refusing_parser marked_section = Raise ParserRejectedMarkup /\
   @extract_games_from_html ascii_only refusing_parser marked_section 85 95 []
   = (Raise ParserRejectedMarkup, [])).
Proof.
  pose proof (@skips_without_raising ascii_only) as H.
  split; [|split; [|split; [|split]]].
  - split; [reflexivity|].
    apply (proj1 (H (parser_giving scenario_mixed))). reflexivity.
  - split; [vm_compute; lia|].
    apply (proj1 (proj2 (H (parser_giving scenario_mixed)))).
    vm_compute. lia.
  - split; [reflexivity|].
    apply (proj1 (proj2 (proj2 (proj2 (H (parser_giving scenario_mixed)))))
             (raise IndexError) IndexError fresh fresh); [reflexivity | auto].
  - split; [reflexivity|]. split; [reflexivity|].
    apply (proj1 (proj2 (proj2 (proj2 (proj2 (H (parser_giving empty_soup))))))
             (markup_of empty_soup) 85%Z 95%Z [] empty_soup); reflexivity.
  - split; [reflexivity|].
    apply (proj2 (proj2 (proj2 (proj2 (proj2 (H refusing_parser))))));
      reflexivity.
Defined.

(** C7 as the specification states it fails where both parser attempts
    refuse the document: without lxml, and with a marked section that
    html.parser does not take, the function raises and returns no list. *)
Lemma non_parseable_document_raises :
  refusing_parser marked_section (lit "lxml") = Raise FeatureNotFound /\
  refusing_parser marked_section (lit "html.parser") = Raise ParserRejectedMarkup /\
  @extract_games_from_html ascii_only refusing_parser marked_section
    default_min_year default_max_year [] = (Raise ParserRejectedMarkup, []) /\
  fst (@extract_games_from_html ascii_only refusing_parser marked_section
         default_min_year default_max_year []) <> Return [].
Proof.
  repeat split; try (vm_compute; reflexivity).
  vm_compute. discriminate.
Qed.

(** C9 as the specification states it fails on the same document: with
    the bounds inverted the function still raises, and returns no list. *)
Lemma inverted_range_raises :
  (95 > 85)%Z /\
  parsed refusing_parser marked_section = Raise ParserRejectedMarkup /\
  @extract_games_from_html ascii_only refusing_parser marked_section 95 85 [] =
    (Raise ParserRejectedMarkup, []) /\
  fst (@extract_games_from_html ascii_only refusing_parser marked_section 95 85 [])
    <> Return [].
Proof.
  split; [lia|]. repeat split; try (vm_compute; reflexivity).
  vm_compute. discriminate.
Qed.


(* ===================================================================== *)
(** ** More about the extraction: order, fields, windows, headers *)
(* ===================================================================== *)

Lemma lstrip_head (s : list N) (c : N) (rest : list N) :
  lstrip s = c :: rest -> isspace c = false.
Proof.
  induction s as [|a s IH]; simpl; [discriminate|].
  destruct (isspace a) eqn:E; [exact IH|]. intros [= <- _]. exact E.
Qed.

(** What [lstrip] leaves is the end of the string. *)
Lemma lstrip_suffix (s : list N) : exists front, s = front ++ lstrip s.
Proof.
  induction s as [|a s [front IH]]; simpl; [now exists []|].
  destruct (isspace a).
  - exists (a :: front). simpl. now rewrite <- IH.
  - now exists [].
Qed.

(** The result of [strip] has no blank at either end. *)
Lemma strip_trimmed (s : list N) : trimmed (strip s).
Proof.
  unfold trimmed, strip, rstrip. split.
  - intros c rest E.
    destruct (lstrip_suffix (rev (lstrip s))) as [front Hf].
    assert (Hr : lstrip s = rev (lstrip (rev (lstrip s))) ++ rev front).
    { rewrite <- rev_app_distr, <- Hf. now rewrite rev_involutive. }
    rewrite E in Hr. simpl in Hr. apply (lstrip_head s c _ Hr).
  - intros front c E.
    assert (Hr : lstrip (rev (lstrip s)) = c :: rev front).
    { rewrite <- (rev_involutive (lstrip (rev (lstrip s)))), E, rev_app_distr.
      reflexivity. }
    apply (lstrip_head _ _ _ Hr).
Qed.

(** Emitting appends, in the order met. *)
Lemma emit_all_sublist (cs : list GameRecord) (f : frame) :
  exists new, games (emit_all cs f) = games f ++ new /\ sublist new cs.
Proof.
  revert f. induction cs as [|c cs IH]; intros f.
  - exists []. split; [now rewrite app_nil_r | constructor].
  - change (emit_all (c :: cs) f) with (emit_all cs (emit c f)).
    destruct (IH (emit c f)) as (new & E & Hs). rewrite E.
    unfold emit. destruct (bool_decide _); simpl.
    + exists (c :: new). split; [now rewrite <- app_assoc | now constructor].
    + exists new. split; [reflexivity | now constructor].
Qed.

Lemma emit_all_region (r : list N) (cs : list GameRecord) (f : frame) :
  Forall (fun g => region g = r) (games f) ->
  Forall (fun g => region g = r) cs ->
  Forall (fun g => region g = r) (games (emit_all cs f)).
Proof.
  intros Hf Hc. destruct (emit_all_sublist cs f) as (new & -> & Hs).
  apply Forall_app. split; [exact Hf|]. rewrite Forall_forall in *.
  intros g Hg. apply Hc. now apply (elem_of_sublist new cs).
Qed.

(** Emitting the records of a window of years gives the records of that
    window among those emitted without the window. *)
Lemma emit_all_window (min_year max_year : Z) (r : list N)
    (cs : list GameRecord) (f f' : frame) :
  keyed f -> keyed f' ->
  games f = List.filter (in_window min_year max_year) (games f') ->
  Forall (fun g => region g = r) (games f') ->
  Forall (fun g => region g = r) cs ->
  games (emit_all (List.filter (in_window min_year max_year) cs) f) =
  List.filter (in_window min_year max_year) (games (emit_all cs f')).
Proof.
  revert f f'. induction cs as [|c cs IH]; intros f f' Hk Hk' Hg Hr Hc; [exact Hg|].
  apply Forall_cons in Hc as [Hcr Hc].
  change (emit_all (c :: cs) f') with (emit_all cs (emit c f')).
  assert (Hr' : Forall (fun g => region g = r) (games (emit c f'))).
  { unfold emit. destruct (bool_decide _); [|exact Hr]. simpl.
    apply Forall_app. split; [exact Hr|]. now constructor. }
  assert (Hw : forall g, g ∈ games f' -> unique_key g = unique_key c ->
                         in_window min_year max_year g = in_window min_year max_year c).
  { intros g Hin Ek. rewrite Forall_forall in Hr.
    assert (Et : triple g = triple c)
      by (apply unique_key_inj; [now rewrite (Hr g Hin)|exact Ek]).
    unfold in_window. injection Et as _ -> _. reflexivity. }
  simpl. destruct (in_window min_year max_year c) eqn:Ec.
  - change (emit_all (c :: ?l) f) with (emit_all l (emit c f)).
    apply IH; auto using keyed_emit.
    unfold emit.
    destruct (decide (unique_key c ∈ seen_titles f')) as [Hin'|Hnin'].
    + assert (Hin : unique_key c ∈ seen_titles f).
      { apply Hk' in Hin' as (g & Hg' & Ek). apply Hk. exists g. split; [|exact Ek].
        rewrite Hg. apply list_elem_of_In, filter_In. split; [now apply list_elem_of_In|].
        now rewrite (Hw g Hg' Ek). }
      rewrite !bool_decide_eq_false_2 by auto. exact Hg.
    + assert (Hnin : unique_key c ∉ seen_titles f).
      { intros Hin. apply Hnin'. apply Hk in Hin as (g & Hg' & Ek). apply Hk'.
        exists g. split; [|exact Ek]. rewrite Hg in Hg'.
        apply list_elem_of_In, filter_In in Hg' as [Hg' _]. now apply list_elem_of_In. }
      rewrite !bool_decide_eq_true_2 by auto. simpl.
      rewrite List.filter_app, Hg. simpl. now rewrite Ec.
  - apply IH; auto using keyed_emit.
    unfold emit. destruct (bool_decide _); [|exact Hg]. simpl.
    rewrite List.filter_app, Hg. simpl. rewrite Ec. now rewrite app_nil_r.
Qed.

Section More.

Context {U : UnicodeData}.
Variable BeautifulSoup : list N -> list N -> result node.

(** A row gives the same record under a narrower window, if the year is
    still inside. *)
Lemma row_record_window (min_year max_year min_year' max_year' : Z)
    (r : list N) (row : node) :
  (min_year' <= min_year)%Z -> (max_year <= max_year')%Z ->
  row_record min_year max_year r row =
  match row_record min_year' max_year' r row with
  | Some g => if in_window min_year max_year g then Some g else None
  | None => None
  end.
Proof.
  intros Hmin Hmax. unfold row_record, in_window.
  destruct (find_all _ row) as [|c0 [|c1 [|c2 rest]]]; try reflexivity.
  destruct (str_in _ _); [reflexivity|].
  destruct (re_search _) as [g|]; [|reflexivity].
  destruct (int g) as [y|]; [|reflexivity].
  destruct ((min_year' <=? y)%Z && (y <=? max_year')%Z) eqn:E'; simpl.
  - reflexivity.
  - destruct ((min_year <=? y)%Z && (y <=? max_year)%Z) eqn:E; [|reflexivity].
    apply andb_true_iff in E as [H1 H2]. apply Z.leb_le in H1, H2.
    apply andb_false_iff in E' as [H|H]; apply Z.leb_gt in H; lia.
Qed.

Lemma omap_window (min_year max_year min_year' max_year' : Z)
    (r : list N) (rows : list node) :
  (min_year' <= min_year)%Z -> (max_year <= max_year')%Z ->
  omap (row_record min_year max_year r) rows =
  List.filter (in_window min_year max_year)
              (omap (row_record min_year' max_year' r) rows).
Proof.
  intros Hmin Hmax. induction rows as [|row rows IH]; [reflexivity|].
  cbn [omap list_omap]. rewrite (row_record_window _ _ _ _ r row Hmin Hmax).
  destruct (row_record min_year' max_year' r row) as [g|]; [|exact IH].
  simpl. destruct (in_window min_year max_year g); now rewrite IH.
Qed.

Lemma candidates_window (soup : node) (min_year max_year min_year' max_year' : Z) :
  (min_year' <= min_year)%Z -> (max_year <= max_year')%Z ->
  candidates soup min_year max_year =
  List.filter (in_window min_year max_year) (candidates soup min_year' max_year').
Proof.
  intros Hmin Hmax. unfold candidates.
  induction (soup_find_all [lit "table"] soup) as [|t ts IH]; [reflexivity|].
  simpl. rewrite List.filter_app, <- IH. f_equal.
  unfold table_records. destruct (region_ok soup t && header_ok t.2); [|reflexivity].
  now apply omap_window.
Qed.

Lemma candidates_regions (soup : node) (min_year max_year : Z) :
  Forall (fun g => region g = lit "North America")
         (candidates soup min_year max_year).
Proof. apply Forall_forall. intros g Hg. now apply candidates_region in Hg. Qed.

(** X1. The records are returned in the order their rows are met: the
    list returned is the list of candidates with some of them left out. *)
Theorem encounter_order (html_content : list N) (min_year max_year : Z)
    (out : list (list N)) (soup : node) :
  parsed BeautifulSoup html_content = Return soup ->
  exists gs,
    extract_games_from_html BeautifulSoup html_content min_year max_year out =
      (Return gs, out ++ printed soup) /\
    sublist gs (candidates soup min_year max_year).
Proof.
  intros Hp. eexists. split; [apply extract_parsed, Hp|].
  destruct (emit_all_sublist (candidates soup min_year max_year) (entry_frame out))
    as (new & -> & Hs). exact Hs.
Qed.

(** X2. Every record returned has the region "North America", and its
    title, publisher and release date neither start nor end with a blank. *)
Theorem fields_normalized (html_content : list N) (min_year max_year : Z)
    (out : list (list N)) (soup : node) :
  parsed BeautifulSoup html_content = Return soup ->
  exists gs,
    extract_games_from_html BeautifulSoup html_content min_year max_year out =
      (Return gs, out ++ printed soup) /\
    forall g, g ∈ gs ->
      region g = lit "North America" /\
      trimmed (title g) /\ trimmed (publisher g) /\ trimmed (release_date g).
Proof.
  intros Hp. eexists. split; [apply extract_parsed, Hp|].
  intros g Hg. apply emitted_candidate, candidates_inv in Hg
    as (table & row & _ & _ & _ & _ & Hrec).
  apply row_record_inv in Hrec
    as (c0 & c1 & c2 & rest & group1 & _ & -> & -> & -> & -> & _).
  repeat split; try apply strip_trimmed; apply (proj2 (strip_trimmed _)).
Qed.

(** X3. When every decimal digit has a value from 0 to 9, every year
    returned is from 0 to 99, and a window that misses 0..99 gives the
    empty list. *)
Theorem year_two_digits (html_content : list N) (min_year max_year : Z)
    (out : list (list N)) (soup : node) :
  (forall c d, decimal c = Some d -> (0 <= d <= 9)%Z) ->
  parsed BeautifulSoup html_content = Return soup ->
  exists gs,
    extract_games_from_html BeautifulSoup html_content min_year max_year out =
      (Return gs, out ++ printed soup) /\
    (forall g, g ∈ gs -> (0 <= year g <= 99)%Z) /\
    ((max_year < 0 \/ 99 < min_year)%Z -> gs = []).
Proof.
  intros Hd Hp. eexists. split; [apply extract_parsed, Hp|].
  assert (Hy : forall g, g ∈ candidates soup min_year max_year ->
                         (0 <= year g <= 99)%Z /\ (min_year <= year g <= max_year)%Z).
  { intros g Hg. apply candidates_inv in Hg as (table & row & _ & _ & _ & _ & Hrec).
    apply row_record_inv in Hrec
      as (? & ? & ? & ? & group1 & _ & _ & _ & _ & _ & _ & Hs & Hi & Hr).
    destruct (re_search_first _ _ Hs) as (pre & post & _ & Hm & _).
    destruct (re_match_digits _ _ Hm)
      as (d1 & d2 & v1 & v2 & rest & _ & _ & Hd1 & Hd2 & Hi').
    rewrite Hi in Hi'. injection Hi' as Ey.
    apply Hd in Hd1, Hd2. lia. }
  split.
  - intros g Hg. now apply emitted_candidate, Hy in Hg.
  - intros Hmiss.
    destruct (candidates soup min_year max_year) as [|g cs] eqn:E; [reflexivity|].
    assert (Hg : g ∈ g :: cs) by constructor. apply Hy in Hg. lia.
Qed.

(** X4. Narrowing the window of years only filters the result: what is
    returned for a window inside another is what is returned for the wider
    one, cut down to the years of the narrower, in the same order. *)
Theorem narrower_window (html_content : list N)
    (min_year max_year min_year' max_year' : Z) (out : list (list N)) (soup : node) :
  parsed BeautifulSoup html_content = Return soup ->
  (min_year' <= min_year)%Z -> (max_year <= max_year')%Z ->
  exists wider,
    extract_games_from_html BeautifulSoup html_content min_year' max_year' out =
      (Return wider, out ++ printed soup) /\
    extract_games_from_html BeautifulSoup html_content min_year max_year out =
      (Return (List.filter (in_window min_year max_year) wider), out ++ printed soup).
Proof.
  intros Hp Hmin Hmax. eexists. split; [apply extract_parsed, Hp|].
  rewrite (extract_parsed _ _ _ _ _ soup Hp). f_equal. f_equal.
  rewrite (candidates_window soup _ _ _ _ Hmin Hmax).
  apply (emit_all_window _ _ (lit "North America"));
    try apply keyed_entry; try reflexivity; try constructor.
  apply candidates_regions.
Qed.

(** X5. The line of a table is printed before its header row is looked at:
    a table under an accepted heading that has at most one row, or whose
    first row has no cell reading title or game, prints its line and adds
    no record. *)
Theorem header_gate (soup : node) (min_year max_year : Z) (table : element)
    (prev_heading : node) (f : frame) :
  find_previous [lit "h2"; lit "h3"] soup (fst table) = Some prev_heading ->
  heading_accepted prev_heading = true ->
  (length (find_all [lit "tr"] (snd table)) <= 1)%nat \/
  (exists header_row,
     find [lit "tr"] (snd table) = Some header_row /\
     forall cell, cell ∈ find_all [lit "th"; lit "td"] header_row ->
       lower (strip (get_text cell)) <> lit "title" /\
       lower (strip (get_text cell)) <> lit "game") ->
  table_loop_body soup min_year max_year table f = (Return tt, log [region_line] f).
Proof.
  intros Hprev Hacc Hcase. rewrite table_loop_body_eq.
  assert (Hr : region_ok soup table = true) by (unfold region_ok; now rewrite Hprev).
  rewrite Hr.
  assert (Ht : table_records soup min_year max_year table = []).
  { unfold table_records. rewrite Hr. simpl.
    destruct Hcase as [Hlen|(hr & Hfind & Hcells)].
    - destruct (header_ok table.2); [|reflexivity].
      destruct (find_all [lit "tr"] table.2) as [|r0 [|r1 rs]];
        simpl in *; try reflexivity; lia.
    - replace (header_ok table.2) with false; [reflexivity|].
      unfold header_ok. rewrite Hfind. symmetry. apply orb_false_iff.
      unfold list_in.
      split; apply not_true_is_false; intros H;
        apply existsb_exists in H as (x & Hx & Hb);
        apply in_map_iff in Hx as (cell & <- & Hcell);
        apply list_elem_of_In, Hcells in Hcell as [H1 H2];
        unfold str_eqb in Hb; apply bool_decide_eq_true in Hb; congruence. }
  rewrite Ht. reflexivity.
Qed.

End More.

(* ===================================================================== *)
(** ** Sorting by year and title *)
(* ===================================================================== *)

Section Sorting.

Context {A : Type} (ltb : A -> A -> bool).
Hypothesis ltb_asym : forall a b, ltb a b = true -> ltb b a = false.

Lemma insert_sorted_Permutation (x : A) (l : list A) :
  Permutation (insert_sorted ltb x l) (x :: l).
Proof.
  induction l as [|y l IH]; simpl; [reflexivity|].
  destruct (ltb y x); [|reflexivity].
  rewrite IH. apply perm_swap.
Qed.

Lemma sorted_Permutation (l : list A) : Permutation (sorted ltb l) l.
Proof.
  induction l as [|x l IH]; simpl; [reflexivity|].
  rewrite insert_sorted_Permutation. now constructor.
Qed.

Lemma insert_sorted_Sorted (x : A) (l : list A) :
  Sorted (fun a b => ltb b a = false) l ->
  Sorted (fun a b => ltb b a = false) (insert_sorted ltb x l).
Proof.
  induction 1 as [|y l Hs IH Hhd]; simpl; [repeat constructor|].
  destruct (ltb y x) eqn:E.
  - constructor; [exact IH|].
    destruct l as [|z l]; simpl.
    + constructor. now apply ltb_asym.
    + destruct (ltb z x); constructor.
      * now inversion Hhd.
      * now apply ltb_asym.
  - constructor; [now constructor | now constructor].
Qed.

Lemma sorted_Sorted (l : list A) :
  Sorted (fun a b => ltb b a = false) (sorted ltb l).
Proof.
  induction l as [|x l IH]; simpl; [constructor|].
  now apply insert_sorted_Sorted.
Qed.

(** The sort is stable: elements none of which is below another stay in
    the order they had. *)
Lemma insert_sorted_filter (P : A -> bool) (x : A) (l : list A) :
  (forall a b, P a = true -> P b = true -> ltb a b = false) ->
  List.filter P (insert_sorted ltb x l) = List.filter P (x :: l).
Proof.
  intros HP. induction l as [|y l IH]; [reflexivity|].
  cbn [insert_sorted]. destruct (ltb y x) eqn:E; [|reflexivity].
  cbn [List.filter] in *. rewrite IH.
  destruct (P x) eqn:Ex, (P y) eqn:Ey; try reflexivity.
  rewrite (HP y x Ey Ex) in E. discriminate.
Qed.

Lemma sorted_stable (P : A -> bool) (l : list A) :
  (forall a b, P a = true -> P b = true -> ltb a b = false) ->
  List.filter P (sorted ltb l) = List.filter P l.
Proof.
  intros HP. induction l as [|x l IH]; [reflexivity|].
  cbn [sorted foldr]. fold (sorted ltb l).
  rewrite (insert_sorted_filter P x _ HP). cbn [List.filter]. now rewrite IH.
Qed.

End Sorting.

Lemma str_ltb_asym (a b : list N) : str_ltb a b = true -> str_ltb b a = false.
Proof.
  revert b. induction a as [|x a IH]; intros [|y b]; simpl; try easy.
  destruct (N.ltb_spec x y), (N.ltb_spec y x), (N.eqb_spec x y), (N.eqb_spec y x);
    simpl; try easy; try lia. apply IH.
Qed.

(** Of two different strings one is below the other. *)
Lemma str_ltb_total (a b : list N) :
  str_ltb a b = false -> str_ltb b a = false -> a = b.
Proof.
  revert b. induction a as [|x a IH]; intros [|y b]; simpl; try easy.
  destruct (N.ltb_spec x y), (N.ltb_spec y x), (N.eqb_spec x y), (N.eqb_spec y x);
    simpl; try easy; try lia.
  intros H1 H2. subst. f_equal. now apply IH.
Qed.

Lemma str_ltb_ntrans (a b c : list N) :
  str_ltb b a = false -> str_ltb c b = false -> str_ltb c a = false.
Proof.
  revert b c. induction a as [|x a IH]; intros [|y b] [|z c]; simpl; try easy.
  destruct (N.ltb_spec y x), (N.ltb_spec z y), (N.ltb_spec z x),
    (N.eqb_spec y x), (N.eqb_spec z y), (N.eqb_spec z x);
    simpl; try easy; try lia. apply IH.
Qed.

Lemma sort_key_ltb_asym (a b : GameRecord) :
  sort_key_ltb a b = true -> sort_key_ltb b a = false.
Proof.
  unfold sort_key_ltb.
  destruct (Z.ltb_spec (year a) (year b)), (Z.ltb_spec (year b) (year a)),
    (Z.eqb_spec (year a) (year b)), (Z.eqb_spec (year b) (year a));
    simpl; try easy; try lia. apply str_ltb_asym.
Qed.

Lemma sort_key_ltb_ntrans (a b c : GameRecord) :
  sort_key_ltb b a = false -> sort_key_ltb c b = false -> sort_key_ltb c a = false.
Proof.
  unfold sort_key_ltb.
  destruct (Z.ltb_spec (year b) (year a)), (Z.ltb_spec (year c) (year b)),
    (Z.ltb_spec (year c) (year a)), (Z.eqb_spec (year b) (year a)),
    (Z.eqb_spec (year c) (year b)), (Z.eqb_spec (year c) (year a));
    simpl; try easy; try lia. apply str_ltb_ntrans.
Qed.

(** Two records neither of which is below the other have the same year
    and the same title. *)
Lemma sort_key_ltb_total (a b : GameRecord) :
  sort_key_ltb a b = false -> sort_key_ltb b a = false ->
  year a = year b /\ title a = title b.
Proof.
  unfold sort_key_ltb.
  destruct (Z.ltb_spec (year a) (year b)), (Z.ltb_spec (year b) (year a)),
    (Z.eqb_spec (year a) (year b)), (Z.eqb_spec (year b) (year a));
    simpl; try easy; try lia.
  intros H1 H2. split; [assumption|]. now apply str_ltb_total.
Qed.

(* ===================================================================== *)
(** ** The console table *)
(* ===================================================================== *)

Lemma length_ljust (width : nat) (s : list N) :
  length (ljust width s) = Nat.max width (length s).
Proof. unfold ljust. rewrite length_app, length_replicate. lia. Qed.

Lemma length_ljust_take (width : nat) (s : list N) :
  length (ljust width (take width s)) = width.
Proof. rewrite length_ljust, length_take. lia. Qed.

(** A year of two digits prints in at most two characters. *)
Lemma length_str_of_int_two_digits (y : Z) :
  (0 <= y <= 99)%Z -> (length (str_of_int y) <= 2)%nat.
Proof.
  intros Hy.
  assert (H : forallb (fun n => length (str_of_int (Z.of_nat n)) <=? 2)%nat
                      (seq 0 100) = true) by (vm_compute; reflexivity).
  rewrite forallb_forall in H.
  specialize (H (Z.to_nat y)). rewrite Z2Nat.id in H by lia.
  apply Nat.leb_le, H, in_seq. lia.
Qed.

Lemma filter_NoDup_map {A B} (f : A -> B) (P : A -> bool) (l : list A) :
  NoDup (map f l) -> NoDup (map f (List.filter P l)).
Proof.
  induction l as [|x l IH]; simpl; [auto|].
  intros Hn. apply NoDup_cons in Hn as [Hx Hn].
  destruct (P x); simpl; [|auto].
  apply NoDup_cons. split; [|auto].
  intros Hin. apply Hx.
  apply list_elem_of_fmap in Hin as (y & E & Hy).
  apply list_elem_of_fmap. exists y. split; [exact E|].
  apply list_elem_of_In, filter_In in Hy as [Hy _]. now apply list_elem_of_In.
Qed.

(* ===================================================================== *)
(** ** Sorting and printing dictionaries *)
(* ===================================================================== *)

Lemma insert_sorted_map {A B} (f : A -> B) (ltb : A -> A -> bool)
    (ltb' : B -> B -> bool) (x : A) (l : list A) :
  (forall a b, ltb' (f a) (f b) = ltb a b) ->
  insert_sorted ltb' (f x) (map f l) = map f (insert_sorted ltb x l).
Proof.
  intros H. induction l as [|y l IH]; [reflexivity|].
  cbn [map insert_sorted]. rewrite H. destruct (ltb y x); [|reflexivity].
  cbn [map]. now rewrite IH.
Qed.

Lemma sorted_map {A B} (f : A -> B) (ltb : A -> A -> bool)
    (ltb' : B -> B -> bool) (l : list A) :
  (forall a b, ltb' (f a) (f b) = ltb a b) ->
  sorted ltb' (map f l) = map f (sorted ltb l).
Proof.
  intros H. induction l as [|x l IH]; [reflexivity|].
  cbn [map sorted foldr]. fold (sorted ltb' (map f l)). fold (sorted ltb l).
  rewrite IH. now apply insert_sorted_map.
Qed.

Lemma str_ltb_irrefl (s : list N) : str_ltb s s = false.
Proof.
  destruct (str_ltb s s) eqn:E; [|reflexivity].
  now rewrite (str_ltb_asym _ _ E) in E.
Qed.

Lemma key_lt_refl (k : value * value) : key_lt k k = Some false.
Proof. unfold key_lt. now rewrite !bool_decide_eq_true_2. Qed.

Lemma value_lt_asym (a b : value) :
  value_lt a b = Some true -> value_lt b a = Some false.
Proof.
  destruct a, b; simpl; try discriminate; intros [= H]; f_equal.
  - lia.
  - now apply str_ltb_asym.
Qed.

Lemma key_ltb_asym (a b : value * value) :
  key_ltb a b = true -> key_ltb b a = false.
Proof.
  unfold key_ltb, key_lt. destruct a as [a1 a2], b as [b1 b2]. simpl.
  repeat case_bool_decide; simplify_eq; try discriminate; try reflexivity.
  - destruct (value_lt a2 b2) as [[|]|] eqn:E; try discriminate.
    now rewrite (value_lt_asym _ _ E).
  - destruct (value_lt a1 b1) as [[|]|] eqn:E; try discriminate.
    now rewrite (value_lt_asym _ _ E).
Qed.

(** Among values that can be compared with each other, not being above is
    transitive. *)
Lemma value_lt_ntrans (a b c : value) :
  value_lt b a = Some false -> value_lt c b = Some false ->
  value_lt c a = Some false.
Proof.
  destruct a, b, c; simpl; try discriminate; intros [= H1] [= H2]; f_equal.
  - lia.
  - now apply (str_ltb_ntrans _ s0).
Qed.

Lemma value_lt_total (a b : value) :
  value_lt a b = Some false -> value_lt b a = Some false -> a = b.
Proof.
  destruct a, b; simpl; try discriminate; intros [= H1] [= H2]; f_equal.
  - lia.
  - now apply str_ltb_total.
Qed.

Lemma value_lt_comparable (a b : value) :
  is_Some (value_lt a b) -> is_Some (value_lt b a).
Proof. destruct a, b; simpl; intros [x H]; try discriminate; eauto. Qed.

Lemma comparable_sym (a b : value * value) :
  comparable a b = true -> comparable b a = true.
Proof.
  unfold comparable, key_lt. destruct a as [a1 a2], b as [b1 b2]. simpl.
  repeat case_bool_decide; simplify_eq; try reflexivity.
  - destruct (value_lt a2 b2) eqn:E; [|discriminate]. intros _.
    destruct (value_lt_comparable a2 b2) as [x ->]; eauto.
  - destruct (value_lt a1 b1) eqn:E; [|discriminate]. intros _.
    destruct (value_lt_comparable a1 b1) as [x ->]; eauto.
Qed.

Ltac value_order :=
  match goal with
  | H1 : value_lt ?b ?a = Some false, H2 : value_lt ?c ?b = Some false,
    H3 : value_lt ?c ?a = Some true |- _ =>
      rewrite (value_lt_ntrans _ _ _ H1 H2) in H3; discriminate
  | H1 : value_lt ?a ?b = Some false, H2 : value_lt ?b ?a = Some false,
    H3 : ?a <> ?b |- _ => destruct (H3 (value_lt_total _ _ H1 H2))
  | H1 : value_lt ?a ?b = Some true, H2 : value_lt ?b ?a = Some true |- _ =>
      rewrite (value_lt_asym _ _ H1) in H2; discriminate
  | H1 : value_lt ?a ?b = Some true, H2 : value_lt ?b ?c = Some true,
    H3 : value_lt ?c ?a = Some true |- _ =>
      apply value_lt_asym in H1, H2;
      rewrite (value_lt_ntrans _ _ _ H2 H1) in H3; discriminate
  | H1 : value_lt ?a ?b = Some true, H2 : value_lt ?b ?c = Some false,
    H3 : value_lt ?c ?a = Some true |- _ =>
      apply value_lt_asym in H1;
      rewrite (value_lt_ntrans _ _ _ H1 H2) in H3 ; discriminate
  end.

Lemma key_ltb_ntrans (a b c : value * value) :
  comparable a b = true -> comparable b c = true -> comparable a c = true ->
  key_ltb b a = false -> key_ltb c b = false -> key_ltb c a = false.
Proof.
  intros Hab Hbc Hac.
  apply comparable_sym in Hab, Hbc, Hac. revert Hab Hbc Hac.
  unfold key_ltb, comparable, key_lt. destruct a as [a1 a2], b as [b1 b2], c as [c1 c2].
  simpl.
  repeat case_bool_decide; simplify_eq; try reflexivity; try (intros; assumption).
  all: repeat match goal with
       | |- context [value_lt ?x ?y] =>
           let E := fresh "E" in destruct (value_lt x y) as [[|]|] eqn:E
       end; try discriminate; try reflexivity; intros _ _ _ _ _.
  all: try value_order.
  all: repeat match goal with
       | H : value_lt ?x ?y = Some true |- _ =>
           lazymatch goal with
           | _ : value_lt y x = Some false |- _ => fail
           | _ => pose proof (value_lt_asym _ _ H)
           end
       end.
  all: try value_order.
Qed.

(** Being compared and found in order is transitive: keys that were put in
    order by comparing neighbours can all be compared with each other. *)
Lemma in_order_trans (a b c : value * value) :
  comparable a b = true /\ key_ltb b a = false ->
  comparable b c = true /\ key_ltb c b = false ->
  comparable a c = true /\ key_ltb c a = false.
Proof.
  intros [Hab Hba] [Hbc Hcb].
  assert (Hac : comparable a c = true).
  { apply comparable_sym in Hab as Hab', Hbc as Hbc'.
    revert Hab Hbc Hab' Hbc' Hba Hcb.
    unfold key_ltb, comparable, key_lt.
    destruct a as [[a1|a1] [a2|a2]], b as [[b1|b1] [b2|b2]], c as [[c1|c1] [c2|c2]];
      simpl; repeat case_bool_decide; simplify_eq;
      try reflexivity; try discriminate; intros _ _ _ _ Hba Hcb; exfalso.
    all: repeat match goal with
         | H : VInt ?n <> VInt ?m |- _ =>
             assert (n <> m) by (intros ->; now apply H); clear H
         | H : VStr ?s <> VStr ?t |- _ =>
             assert (s <> t) by (intros ->; now apply H); clear H
         | H : (_ <? _)%Z = false |- _ => apply Z.ltb_ge in H
         end; try lia.
    all: match goal with
         | H1 : str_ltb ?s ?t = false, H2 : str_ltb ?t ?s = false, H3 : ?s <> ?t |- _ =>
             exact (H3 (str_ltb_total _ _ H1 H2))
         end. }
  split; [exact Hac|]. now apply (key_ltb_ntrans a b c).
Qed.

Lemma neighbours_comparable (keys : list (value * value)) :
  Sorted (fun a b => comparable a b = true /\ key_ltb b a = false) keys ->
  forall a b, a ∈ keys -> b ∈ keys -> comparable a b = true.
Proof.
  intros Hs. apply Sorted_StronglySorted in Hs;
    [|intros a b c; apply in_order_trans].
  induction Hs as [|x l Hs IH Hx]; intros a b Ha Hb; [inversion Ha|].
  rewrite Forall_forall in Hx.
  apply elem_of_cons in Ha as [Ea|Ha], Hb as [Eb|Hb]; subst.
  - unfold comparable. now rewrite key_lt_refl.
  - now apply Hx.
  - apply comparable_sym. now apply Hx.
  - now apply IH.
Qed.

(** No arrangement of games two of whose keys cannot be compared is put in
    order by comparisons that succeed. *)
Lemma no_order_without_comparison (games rows : list dict) (a b : dict) :
  a ∈ games -> b ∈ games -> comparable (sort_key a) (sort_key b) = false ->
  Permutation rows games ->
  ~ Sorted (fun x y => comparable (sort_key x) (sort_key y) = true /\
                       key_ltb (sort_key y) (sort_key x) = false) rows.
Proof.
  intros Ha Hb Hab Hp Hs. rewrite <- Hp in Ha, Hb.
  assert (Hk : Sorted (fun x y => comparable x y = true /\ key_ltb y x = false)
                      (map sort_key rows)).
  { clear Ha Hb Hp. induction Hs as [|x l Hs IH Hx]; [constructor|].
    cbn [map]. constructor; [exact IH|].
    destruct Hx; constructor. assumption. }
  rewrite (neighbours_comparable _ Hk (sort_key a) (sort_key b)) in Hab;
    [discriminate | |]; apply list_elem_of_fmap; eauto.
Qed.

Lemma Sorted_StronglySorted_on {A} (R : A -> A -> Prop) (l : list A) :
  (forall a b c, a ∈ l -> b ∈ l -> c ∈ l -> R a b -> R b c -> R a c) ->
  Sorted R l -> StronglySorted R l.
Proof.
  induction l as [|x l IH]; intros Ht Hs; [constructor|].
  apply Sorted_inv in Hs as [Hs Hhd].
  assert (IHl : StronglySorted R l).
  { apply IH; [|exact Hs]. intros a b c Ha Hb Hc.
    apply Ht; now constructor. }
  constructor; [exact IHl|].
  destruct l as [|y l]; [constructor|].
  apply HdRel_inv in Hhd. apply StronglySorted_inv in IHl as [_ Hy].
  constructor; [exact Hhd|].
  rewrite Forall_forall in *. intros z Hz.
  apply (Ht x y z); try (repeat constructor; fail); auto.
  - do 2 constructor. exact Hz.
Qed.

Lemma sorted_by_key_comparable (l : list dict) :
  (forall a b, a ∈ l -> b ∈ l -> comparable (sort_key a) (sort_key b) = true) ->
  sorted_by_key l =
  Returned (sorted (fun a b => key_ltb (sort_key a) (sort_key b)) l).
Proof.
  intros H. unfold sorted_by_key.
  replace (forallb _ l) with true; [reflexivity|].
  symmetry. apply forallb_forall. intros a Ha.
  apply forallb_forall. intros b Hb. apply H; now apply list_elem_of_In.
Qed.

Lemma sorted_by_key_incomparable (l : list dict) (a b : dict) :
  a ∈ l -> b ∈ l -> comparable (sort_key a) (sort_key b) = false ->
  sorted_by_key l = Raised py.TypeError.
Proof.
  intros Ha Hb H. unfold sorted_by_key.
  destruct (forallb _ l) eqn:E; [|reflexivity].
  rewrite forallb_forall in E. apply list_elem_of_In in Ha, Hb.
  specialize (E a Ha). rewrite forallb_forall in E.
  rewrite (E b Hb) in H. discriminate.
Qed.

(** The sorted list of games whose keys can be compared. *)
Lemma sorted_by_key_spec (l : list dict) :
  (forall a b, a ∈ l -> b ∈ l -> comparable (sort_key a) (sort_key b) = true) ->
  exists rows,
    sorted_by_key l = Returned rows /\
    Permutation rows l /\
    StronglySorted (fun a b => key_ltb (sort_key b) (sort_key a) = false) rows /\
    forall k, List.filter (has_key k) rows = List.filter (has_key k) l.
Proof.
  intros H. rewrite (sorted_by_key_comparable l H).
  set (ltb := fun a b : dict => key_ltb (sort_key a) (sort_key b)).
  assert (Hasym : forall a b, ltb a b = true -> ltb b a = false)
    by (intros a b; apply key_ltb_asym).
  pose proof (sorted_Permutation ltb l) as Hperm.
  exists (sorted ltb l). split; [reflexivity|]. split; [exact Hperm|]. split.
  - apply Sorted_StronglySorted_on; [|now apply sorted_Sorted].
    intros a b c Ha Hb Hc. rewrite Hperm in Ha, Hb, Hc.
    apply (key_ltb_ntrans (sort_key a) (sort_key b) (sort_key c)); auto.
  - intros k. apply sorted_stable. intros a b Ha Hb.
    unfold has_key in Ha, Hb. apply bool_decide_eq_true in Ha, Hb.
    unfold ltb, key_ltb. now rewrite Ha, Hb, key_lt_refl.
Qed.

Lemma print_rows_all (rows : list dict) (lines out : list (list N)) :
  Forall2 (fun game line => row_text game = Returned line) rows lines ->
  print_rows rows out = (Returned tt, out ++ lines).
Proof.
  intros H. revert out. induction H as [|g line rows lines Hg _ IH]; intros out.
  - now rewrite app_nil_r.
  - cbn [print_rows]. rewrite Hg, IH, <- app_assoc. reflexivity.
Qed.




Section ConsoleLemmas.

Context {U : UnicodeData}.



End ConsoleLemmas.

(** *** The dictionaries of the records *)

Lemma sort_key_dict_of (g : GameRecord) :
  sort_key (dict_of g) = (VInt (year g), VStr (title g)).
Proof. reflexivity. Qed.

Lemma key_ltb_dict_of (a b : GameRecord) :
  key_ltb (sort_key (dict_of a)) (sort_key (dict_of b)) = sort_key_ltb a b.
Proof.
  rewrite !sort_key_dict_of. unfold key_ltb, key_lt, sort_key_ltb. simpl.
  case_bool_decide as H1.
  - injection H1 as Ey. rewrite Ey, Z.ltb_irrefl, Z.eqb_refl. simpl.
    case_bool_decide as H2; [|reflexivity].
    injection H2 as Et. now rewrite Et, str_ltb_irrefl.
  - destruct (Z.eqb_spec (year a) (year b)) as [E|E]; [now rewrite E in H1|].
    now rewrite orb_false_r.
Qed.

Lemma comparable_dict_of (a b : GameRecord) :
  comparable (sort_key (dict_of a)) (sort_key (dict_of b)) = true.
Proof.
  rewrite !sort_key_dict_of. unfold comparable, key_lt. simpl.
  repeat case_bool_decide; reflexivity.
Qed.

Lemma sorted_by_key_dict_of (gs : list GameRecord) :
  sorted_by_key (map dict_of gs) =
  Returned (map dict_of (sorted sort_key_ltb gs)).
Proof.
  rewrite sorted_by_key_comparable.
  - f_equal. apply sorted_map. apply key_ltb_dict_of.
  - intros a b Ha Hb.
    apply list_elem_of_fmap in Ha as (a' & -> & _), Hb as (b' & -> & _).
    apply comparable_dict_of.
Qed.

Lemma row_text_dict_of (g : GameRecord) :
  row_text (dict_of g) = Returned (table_row g).
Proof. reflexivity. Qed.

Lemma html_row_text_dict_of (g : GameRecord) :
  html_row_text (dict_of g) = html_row g.
Proof. reflexivity. Qed.

Lemma print_rows_dict_of (gs : list GameRecord) (out : list (list N)) :
  print_rows (map dict_of gs) out = (Returned tt, out ++ map table_row gs).
Proof.
  apply print_rows_all. induction gs; constructor; auto using row_text_dict_of.
Qed.

Lemma print_table_dict_of (gs : list GameRecord) (out : list (list N)) :
  print_table (map dict_of gs) out =
  (Returned tt,
   out ++ [header_line; rule_line] ++ map table_row (sorted sort_key_ltb gs)
       ++ [total_line (length gs)]).
Proof.
  unfold print_table. rewrite sorted_by_key_dict_of, print_rows_dict_of.
  rewrite length_map, <- !app_assoc. reflexivity.
Qed.

Section RecordsRendered.

Context {U : UnicodeData}.

Lemma filter_by_name_nil (name_filter : option (list N)) :
  filter_by_name name_filter [] = [].
Proof. destruct name_filter as [[|c nf]|]; reflexivity. Qed.

Lemma comprehension_dict_of (f : list N) (gs : list GameRecord) :
  comprehension f (map dict_of gs) =
  Returned (map dict_of (List.filter (name_matches f) gs)).
Proof.
  induction gs as [|g gs IH]; [reflexivity|].
  cbn [map comprehension List.filter]. rewrite IH.
  change (title_matches f (dict_of g)) with (Returned (A:=bool) (name_matches f g)).
  simpl. now destruct (name_matches f g).
Qed.

Lemma filtered_dict_of (name_filter : option (list N)) (gs : list GameRecord) :
  filtered name_filter (map dict_of gs) =
  Returned (map dict_of (filter_by_name name_filter gs)).
Proof.
  destruct name_filter as [[|c nf]|]; try reflexivity.
  apply comprehension_dict_of.
Qed.

(** The console table of the records [extract_games_from_html] builds. *)
Lemma print_games_table_dict_of (gs : list GameRecord)
    (name_filter : option (list N)) (out : list (list N)) :
  filter_by_name name_filter gs <> [] ->
  print_games_table (map dict_of gs) name_filter out =
  (Returned tt,
   out ++ [header_line; rule_line]
       ++ map table_row (sorted sort_key_ltb (filter_by_name name_filter gs))
       ++ [total_line (length (filter_by_name name_filter gs))]).
Proof.
  intros Hne. destruct gs as [|g0 gs].
  - now rewrite filter_by_name_nil in Hne.
  - unfold print_games_table. cbn [map].
    destruct name_filter as [[|c nf]|]; try apply (print_table_dict_of (g0 :: gs)).
    change (dict_of g0 :: map dict_of gs) with (map dict_of (g0 :: gs)).
    rewrite comprehension_dict_of. unfold filter_by_name in *.
    destruct (List.filter _ _) as [|g' gs'] eqn:E; [contradiction|].
    apply (print_table_dict_of (g' :: gs')).
Qed.

Lemma print_games_table_dict_of_none (gs : list GameRecord)
    (name_filter : option (list N)) (out : list (list N)) :
  filter_by_name name_filter gs = [] ->
  exists line, print_games_table (map dict_of gs) name_filter out =
               (Returned tt, out ++ [line]).
Proof.
  intros Hnone. destruct gs as [|g0 gs]; [eexists; reflexivity|].
  unfold print_games_table. cbn [map].
  destruct name_filter as [[|c nf]|]; try discriminate.
  change (dict_of g0 :: map dict_of gs) with (map dict_of (g0 :: gs)).
  rewrite comprehension_dict_of. unfold filter_by_name in Hnone. rewrite Hnone.
  eexists. reflexivity.
Qed.

End RecordsRendered.

(* ===================================================================== *)
(** ** The console table: theorems *)
(* ===================================================================== *)

Section Console.

Context {U : UnicodeData}.
Variable BeautifulSoup : list N -> list N -> result node.

Lemma print_games_table_filtered (games shown : list dict)
    (name_filter : option (list N)) (out : list (list N)) :
  filtered name_filter games = Returned shown -> shown <> [] ->
  print_games_table games name_filter out = print_table shown out.
Proof.
  intros Hf Hne. destruct games as [|g0 games].
  - destruct name_filter as [[|c nf]|]; simpl in Hf; injection Hf as <-;
      contradiction.
  - unfold print_games_table, filtered in *.
    destruct name_filter as [[|c nf]|]; try (injection Hf as <-; reflexivity).
    rewrite Hf. destruct shown; [contradiction|reflexivity].
Qed.


(** X7. The columns of the console table.  The row of a game with a
    year from 0 to 99 is 110 characters wide: the year on 6, the first 50
    characters of the title on 50, the first 30 of the publisher on 30,
    the first 15 of the region on 15, with " | " between them; the header
    has its first four columns at the same places. *)
Theorem console_columns (g : GameRecord) :
  (0 <= year g <= 99)%Z ->
  (exists y t p r,
     table_row g = y ++ bar ++ t ++ bar ++ p ++ bar ++ r /\
     length y = 6%nat /\ length t = 50%nat /\ length p = 30%nat /\ length r = 15%nat /\
     take (length (str_of_int (year g))) y = str_of_int (year g) /\
     take (Nat.min 50 (length (title g))) t = take 50 (title g) /\
     take (Nat.min 30 (length (publisher g))) p = take 30 (publisher g) /\
     take (Nat.min 15 (length (region g))) r = take 15 (region g)) /\
  length (table_row g) = 110%nat /\
  (exists y t p r,
     header_line = y ++ bar ++ t ++ bar ++ p ++ bar ++ r ++ bar ++ ljust 8 (lit "Status") /\
     length y = 6%nat /\ length t = 50%nat /\ length p = 30%nat /\ length r = 15%nat).
Proof.
  intros Hy. apply length_str_of_int_two_digits in Hy.
  assert (Hpre : forall w (s : list N), take (length s) (ljust w s) = s).
  { intros w s. unfold ljust. now rewrite take_app_length. }
  split; [|split].
  - exists (ljust 6 (str_of_int (year g))), (ljust 50 (take 50 (title g))),
      (ljust 30 (take 30 (publisher g))), (ljust 15 (take 15 (region g))).
    split; [reflexivity|].
    rewrite !length_ljust_take, length_ljust.
    repeat split; try lia; try apply Hpre.
    all: rewrite <- length_take; apply Hpre.
  - unfold table_row. rewrite !length_app, !length_ljust_take, length_ljust.
    change (length bar) with 3%nat. lia.
  - exists (ljust 6 (lit "Year")), (ljust 50 (lit "Title")),
      (ljust 30 (lit "Publisher")), (ljust 15 (lit "Region")).
    repeat split.
Qed.

(** X8. The console table of what the extraction returns.  Whatever the
    name filter is, [print_games_table] returns on the dictionaries that
    [extract_games_from_html] has built.  When no game passes the filter it
    prints one line; otherwise it prints the header, the rule, the row of
    each game that passes and their number, and the games of the rows go
    strictly up by year and then by full title, no two of them having the
    same year and title. *)
Theorem console_table_of_extraction (html_content : list N)
    (min_year max_year : Z) (out : list (list N)) (soup : node) :
  parsed BeautifulSoup html_content = Return soup ->
  exists gs,
    extract_games_from_html BeautifulSoup html_content min_year max_year out =
      (Return gs, out ++ printed soup) /\
    forall name_filter out',
      (filter_by_name name_filter gs = [] ->
       exists line,
         print_games_table (map dict_of gs) name_filter out' =
           (Returned tt, out' ++ [line])) /\
      (filter_by_name name_filter gs <> [] ->
       exists rows,
         print_games_table (map dict_of gs) name_filter out' =
           (Returned tt,
            out' ++ [header_line; rule_line] ++ map table_row rows
                 ++ [total_line (length rows)]) /\
         Permutation rows (filter_by_name name_filter gs) /\
         StronglySorted (fun a b => sort_key_ltb a b = true) rows).
Proof.
  intros Hp. eexists. split; [apply extract_parsed, Hp|].
  set (gs := games (emit_all (candidates soup min_year max_year) (entry_frame out))).
  assert (Hnd : NoDup (map triple gs)).
  { apply (NoDup_fmap_1 key_of_triple).
    change (key_of_triple <$> map triple ?l) with (map key_of_triple (map triple l)).
    rewrite map_map. apply emit_all_NoDup; [apply keyed_entry|constructor]. }
  assert (Hreg : Forall (fun g => region g = lit "North America") gs).
  { apply emit_all_region; [constructor|apply candidates_regions]. }
  intros name_filter out'.
  split; [apply print_games_table_dict_of_none|].
  intros Hne. rewrite (print_games_table_dict_of _ _ _ Hne).
  set (shown := filter_by_name name_filter gs).
  assert (Hnd' : NoDup (map triple shown)).
  { unfold shown, filter_by_name. destruct name_filter as [[|c nf]|]; auto.
    now apply filter_NoDup_map. }
  assert (Hreg' : Forall (fun g => region g = lit "North America") shown).
  { unfold shown, filter_by_name. destruct name_filter as [[|c nf]|]; auto.
    rewrite Forall_forall in *. intros g Hg. apply Hreg.
    apply list_elem_of_In, filter_In in Hg as [Hg _]. now apply list_elem_of_In. }
  exists (sorted sort_key_ltb shown).
  pose proof (sorted_Permutation sort_key_ltb shown) as Hperm.
  split; [now rewrite (Permutation_length Hperm)|]. split; [exact Hperm|].
  assert (Hs : StronglySorted (fun a b => sort_key_ltb b a = false)
                              (sorted sort_key_ltb shown)).
  { apply Sorted_StronglySorted.
    - intros a b c Hab Hbc. now apply (sort_key_ltb_ntrans a b c).
    - apply sorted_Sorted. exact sort_key_ltb_asym. }
  assert (Hnd'' : NoDup (map triple (sorted sort_key_ltb shown))).
  { assert (Hm : map triple (sorted sort_key_ltb shown) ≡ₚ map triple shown)
      by now apply Permutation_map.
    now rewrite Hm. }
  assert (Hreg'' : Forall (fun g => region g = lit "North America")
                          (sorted sort_key_ltb shown)).
  { rewrite Forall_forall in *. intros g Hg. apply Hreg'. now rewrite <- Hperm. }
  clear Hperm. induction Hs as [|x l Hs IH Hx]; [constructor|].
  simpl in Hnd''. apply NoDup_cons in Hnd'' as [Hxl Hnd''].
  apply Forall_cons in Hreg'' as [Hxr Hreg''].
  constructor; [now apply IH|].
  rewrite Forall_forall in *. intros y Hy.
  destruct (sort_key_ltb x y) eqn:E; [reflexivity|]. exfalso. apply Hxl.
  destruct (sort_key_ltb_total _ _ E (Hx y Hy)) as [Ey Et].
  apply list_elem_of_fmap. exists y. split; [|exact Hy].
  unfold triple. now rewrite Ey, Et, Hxr, (Hreg'' y Hy).
Qed.

End Console.

(* ===================================================================== *)
(** ** The HTML report *)
(* ===================================================================== *)

Section ReportFacts.

Context {U : UnicodeData}.
Variable sep : N.
Variable open_w : gmap (list N) (list N) -> list N -> bool.

(** X9. The report, and its agreement with the console table.  The name
    filter is applied as in [print_games_table], and raises the same
    exceptions; the games kept are sorted by the same key, and [TypeError]
    is raised when two keys cannot be compared.  In both cases no file is
    touched and nothing is printed.  Otherwise the text is the head, one
    row per game kept, by year and then title, and the foot with their
    number, also when no game is kept.  If the file cannot be opened,
    [OSError] is raised and nothing changes; if the text has a surrogate in
    it, the file is left empty and [UnicodeEncodeError] is raised; otherwise
    the text is written to the output path, every other file is left alone,
    and an empty line and the line naming the file are printed.  The rows
    are in the order of the rows [print_games_table] prints for the same
    games and filter.  On the dictionaries of a list of records the text is
    [html_content] of the records. *)
Theorem report_matches_console (games : list dict)
    (name_filter : option (list N)) (w : world) (out : list (list N)) :
  (forall e, filtered name_filter games = Raised e ->
     create_html_table sep open_w games name_filter w = (Raised e, w)) /\
  (forall shown, filtered name_filter games = Returned shown ->
     (forall a b, a ∈ shown -> b ∈ shown ->
        comparable (sort_key a) (sort_key b) = false ->
        create_html_table sep open_w games name_filter w = (Raised py.TypeError, w)) /\
     ((forall a b, a ∈ shown -> b ∈ shown ->
         comparable (sort_key a) (sort_key b) = true) ->
      exists rows text,
        text = html_head ++ flat_map html_row_text rows ++ html_foot (length rows) /\
        Permutation rows shown /\
        StronglySorted (fun a b => key_ltb (sort_key b) (sort_key a) = false) rows /\
        (open_w (files w) (output_file sep) = false ->
         create_html_table sep open_w games name_filter w = (Raised py.OSError, w)) /\
        (open_w (files w) (output_file sep) = true -> encodable text = false ->
         create_html_table sep open_w games name_filter w =
           (Raised py.UnicodeEncodeError,
            {| files := <[ output_file sep := [] ]> (files w);
               console := console w |})) /\
        (open_w (files w) (output_file sep) = true -> encodable text = true ->
         exists w',
           create_html_table sep open_w games name_filter w = (Returned tt, w') /\
           files w' !! output_file sep = Some text /\
           (forall path, path <> output_file sep ->
                         files w' !! path = files w !! path) /\
           console w' =
             console w ++ [[]; lit "HTML table saved to: " ++ output_file sep]) /\
        (shown <> [] ->
         forall lines,
           Forall2 (fun game line => row_text game = Returned line) rows lines ->
           print_games_table games name_filter out =
             (Returned tt,
              out ++ [header_line; rule_line] ++ lines
                  ++ [total_line (length rows)])))) /\
  (forall gs, games = map dict_of gs ->
     open_w (files w) (output_file sep) = true ->
     encodable (html_content gs name_filter) = true ->
     exists w',
       create_html_table sep open_w games name_filter w = (Returned tt, w') /\
       files w' !! output_file sep = Some (html_content gs name_filter)).
Proof.
  split; [|split].
  - intros e He. unfold create_html_table. now rewrite He.
  - intros shown Hf. unfold create_html_table. rewrite Hf. split.
    + intros a b Ha Hb Hab.
      now rewrite (sorted_by_key_incomparable shown a b Ha Hb Hab).
    + intros Hall.
      destruct (sorted_by_key_spec shown Hall) as (rows & E & Hp & Hs & _).
      rewrite E. exists rows. eexists. split; [reflexivity|].
      rewrite (Permutation_length Hp).
      split; [exact Hp|]. split; [exact Hs|].
      split; [|split; [|split] ].
      * intros ->. reflexivity.
      * intros -> ->. reflexivity.
      * intros -> ->. eexists. split; [reflexivity|]. simpl.
        split; [now rewrite lookup_insert_eq|].
        split; [|reflexivity].
        intros path Hne. now rewrite lookup_insert_ne.
      * intros Hne lines Hl.
        rewrite (print_games_table_filtered _ _ _ _ Hf Hne).
        unfold print_table. rewrite E, (print_rows_all _ _ _ Hl).
        now rewrite <- !app_assoc.
  - intros gs -> Ho He. unfold create_html_table.
    rewrite filtered_dict_of, sorted_by_key_dict_of, Ho.
    assert (Et : html_head
                 ++ flat_map html_row_text
                      (map dict_of (sorted sort_key_ltb (filter_by_name name_filter gs)))
                 ++ html_foot (length (map dict_of (filter_by_name name_filter gs)))
                 = html_content gs name_filter).
    { unfold html_content. rewrite length_map. do 2 f_equal.
      induction (sorted sort_key_ltb (filter_by_name name_filter gs)) as [|g l IH];
        [reflexivity|].
      cbn [map flat_map]. now rewrite IH, html_row_text_dict_of. }
    rewrite Et, He. eexists. split; [reflexivity|]. simpl.
    now rewrite lookup_insert_eq.
Qed.

(** A cell of a row of the report holds the text as it is. *)
Lemma html_row_cells (g : GameRecord) :
  exists a b c d,
    html_row g =
    a ++ (lit "<td>" ++ title g ++ lit "</td>")
      ++ b ++ (lit "<td>" ++ publisher g ++ lit "</td>")
      ++ c ++ (lit "<td>" ++ region g ++ lit "</td>") ++ d.
Proof.
  exists (lit "" ++ 10 :: lit "                <tr>" ++ 10
            :: lit "                    <td>" ++ str_of_int (year g) ++ lit "</td>"
            ++ 10 :: lit "                    "),
    (10 :: lit "                    "), (10 :: lit "                    "),
    (10 :: lit "                </tr>" ++ 10 :: lit "        ").
  unfold html_row. cbn [join_lines].
  change (lit "                    <td>")
    with (lit "                    " ++ lit "<td>").
  repeat (rewrite <- ?app_assoc; cbn [app]). reflexivity.
Qed.

(** X10. Nothing is escaped in the report: for every game that passes
    the name filter, the text written has a cell holding its title as it
    is, one holding its publisher and one holding its region, whatever
    characters they are made of. *)
Theorem report_fields_verbatim (games : list GameRecord)
    (name_filter : option (list N)) (g : GameRecord) :
  g ∈ filter_by_name name_filter games ->
  str_in (lit "<td>" ++ title g ++ lit "</td>") (html_content games name_filter) = true /\
  str_in (lit "<td>" ++ publisher g ++ lit "</td>") (html_content games name_filter) = true /\
  str_in (lit "<td>" ++ region g ++ lit "</td>") (html_content games name_filter) = true.
Proof.
  intros Hg. unfold html_content.
  set (shown := filter_by_name name_filter games) in *.
  rewrite <- (sorted_Permutation sort_key_ltb shown) in Hg.
  apply list_elem_of_split in Hg as (l1 & l2 & ->).
  rewrite flat_map_app. cbn [flat_map].
  destruct (html_row_cells g) as (a & b & c & d & ->).
  repeat split; apply str_in_spec.
  - exists (html_head ++ flat_map html_row l1 ++ a). eexists.
    repeat rewrite <- app_assoc. reflexivity.
  - exists (html_head ++ flat_map html_row l1 ++ a
              ++ (lit "<td>" ++ title g ++ lit "</td>") ++ b). eexists.
    repeat rewrite <- app_assoc. reflexivity.
  - exists (html_head ++ flat_map html_row l1 ++ a
              ++ (lit "<td>" ++ title g ++ lit "</td>") ++ b
              ++ (lit "<td>" ++ publisher g ++ lit "</td>") ++ c). eexists.
    repeat rewrite <- app_assoc. reflexivity.
Qed.

End ReportFacts.

(* ===================================================================== *)
(** ** The further properties at sample data *)
(* ===================================================================== *)

Lemma encounter_order_witness :
  parsed (parser_giving scenario_mixed) (markup_of scenario_mixed)
    = Return scenario_mixed /\
  exists gs,
    @extract_games_from_html ascii_only (parser_giving scenario_mixed)
      (markup_of scenario_mixed) 85 95 [] =
      (Return gs, [] ++ @printed ascii_only scenario_mixed) /\
    sublist gs (@candidates ascii_only scenario_mixed 85 95).
Proof.
  split; [reflexivity|].
  apply (@encounter_order ascii_only (parser_giving scenario_mixed)). reflexivity.
Defined.

Lemma fields_normalized_witness :
  parsed (parser_giving scenario_mixed) (markup_of scenario_mixed)
    = Return scenario_mixed /\
  exists gs,
    @extract_games_from_html ascii_only (parser_giving scenario_mixed)
      (markup_of scenario_mixed) 85 95 [] =
      (Return gs, [] ++ @printed ascii_only scenario_mixed) /\
    forall g, g ∈ gs ->
      region g = lit "North America" /\
      trimmed (title g) /\ trimmed (publisher g) /\ trimmed (release_date g).
Proof.
  split; [reflexivity|].
  apply (@fields_normalized ascii_only (parser_giving scenario_mixed)). reflexivity.
Defined.

Lemma ascii_only_digits (c : N) (d : Z) :
  @decimal ascii_only c = Some d -> (0 <= d <= 9)%Z.
Proof.
  simpl. destruct (N.leb_spec 48 c), (N.leb_spec c 57); simpl; try discriminate.
  intros [= <-]. lia.
Qed.

Lemma year_two_digits_witness :
  (forall c d, @decimal ascii_only c = Some d -> (0 <= d <= 9)%Z) /\
  parsed (parser_giving scenario_mixed) (markup_of scenario_mixed)
    = Return scenario_mixed /\
  exists gs,
    @extract_games_from_html ascii_only (parser_giving scenario_mixed)
      (markup_of scenario_mixed) 85 95 [] =
      (Return gs, [] ++ @printed ascii_only scenario_mixed) /\
    (forall g, g ∈ gs -> (0 <= year g <= 99)%Z) /\
    ((95 < 0 \/ 99 < 85)%Z -> gs = []).
Proof.
  split; [exact ascii_only_digits|]. split; [reflexivity|].
  apply (@year_two_digits ascii_only (parser_giving scenario_mixed));
    [exact ascii_only_digits | reflexivity].
Defined.

Lemma narrower_window_witness :
  parsed (parser_giving scenario_mixed) (markup_of scenario_mixed)
    = Return scenario_mixed /\
  (0 <= 86)%Z /\ (86 <= 99)%Z /\
  exists wider,
    @extract_games_from_html ascii_only (parser_giving scenario_mixed)
      (markup_of scenario_mixed) 0 99 [] =
      (Return wider, [] ++ @printed ascii_only scenario_mixed) /\
    @extract_games_from_html ascii_only (parser_giving scenario_mixed)
      (markup_of scenario_mixed) 86 86 [] =
      (Return (List.filter (in_window 86 86) wider),
       [] ++ @printed ascii_only scenario_mixed).
Proof.
  split; [reflexivity|]. split; [lia|]. split; [lia|].
  apply (@narrower_window ascii_only (parser_giving scenario_mixed));
    [reflexivity | lia | lia].
Defined.

Lemma header_gate_witness :
  find_previous [lit "h2"; lit "h3"] header_only 2
    = Some (text_tag "h2" "North America") /\
  @heading_accepted ascii_only (text_tag "h2" "North America") = true /\
  (length (find_all [lit "tr"] (table_of [])) <= 1)%nat /\
  @table_loop_body ascii_only header_only 85 95 (2%nat, table_of []) fresh
  = (Return tt, log [region_line] fresh).
Proof.
  split; [vm_compute; reflexivity|]. split; [vm_compute; reflexivity|].
  split; [vm_compute; lia|].
  apply (@header_gate ascii_only header_only 85%Z 95%Z (2%nat, table_of [])
           (text_tag "h2" "North America") fresh);
    [vm_compute; reflexivity | vm_compute; reflexivity |].
  left. vm_compute. lia.
Defined.

(** The table printed for the games of the test: the year is printed as
    it is and the region reads Unknown. *)
Example test_games_table :
  @print_games_table ascii_only test_games None [] =
  (Returned tt,
   [lit "Year   | Title                                              | Publisher                      | Region          | Status  ";
    replicate 120 45;
    lit "85     | Super Mario Bros.                                  | Nintendo                       | Unknown        ";
    lit "86     | The Legend of Zelda                                | Nintendo                       | Unknown        ";
    lit "Total games: 2"]).
Proof. vm_compute. reflexivity. Qed.

(** The header and the rule are on standard output when [sorted] raises. *)
Example mixed_years_table :
  @print_games_table ascii_only mixed_years None [lit "before"] =
  (Raised py.TypeError, [lit "before"; header_line; rule_line]).
Proof. vm_compute. reflexivity. Qed.

(** A title that is not a [str] passes where there is no filter, and
    raises when its row is printed, after the rows before it. *)
Example numbered_table :
  @print_games_table ascii_only [numbered] None [] =
    (Raised py.TypeError, [header_line; rule_line]) /\
  @print_games_table ascii_only [numbered] (Some (lit "19")) [] =
    (Raised py.AttributeError, []) /\
  @create_html_table ascii_only slash open_always [numbered] None empty_world =
    (Returned tt,
     {| files := {[ output_file slash :=
                      html_head ++ html_row_text numbered ++ html_foot 1 ]};
        console := [[]; lit "HTML table saved to: assets/nes_games_table.html"] |}).
Proof. repeat split; vm_compute; reflexivity. Qed.

(** Two games whose titles part after the 50th character have different
    keys and the same row. *)
Example long_titles_same_row :
  long_title_a <> long_title_b /\
  sort_key_ltb long_title_a long_title_b = true /\
  table_row long_title_a = table_row long_title_b.
Proof. split; [discriminate|]. split; vm_compute; reflexivity. Qed.


Lemma console_columns_witness :
  (0 <= year super_mario_bros <= 99)%Z /\
  length (table_row super_mario_bros) = 110%nat.
Proof.
  split; [vm_compute; split; discriminate|].
  apply (console_columns super_mario_bros). vm_compute. split; discriminate.
Defined.

Lemma console_table_of_extraction_witness :
  parsed (parser_giving scenario_mixed) (markup_of scenario_mixed)
    = Return scenario_mixed /\
  exists gs,
    @extract_games_from_html ascii_only (parser_giving scenario_mixed)
      (markup_of scenario_mixed) 85 95 [] =
      (Return gs, [] ++ @printed ascii_only scenario_mixed) /\
    forall name_filter out',
      (@filter_by_name ascii_only name_filter gs = [] ->
       exists line,
         @print_games_table ascii_only (map dict_of gs) name_filter out' =
           (Returned tt, out' ++ [line])) /\
      (@filter_by_name ascii_only name_filter gs <> [] ->
       exists rows,
         @print_games_table ascii_only (map dict_of gs) name_filter out' =
           (Returned tt,
            out' ++ [header_line; rule_line] ++ map table_row rows
                 ++ [total_line (length rows)]) /\
         Permutation rows (@filter_by_name ascii_only name_filter gs) /\
         StronglySorted (fun a b => sort_key_ltb a b = true) rows).
Proof.
  split; [reflexivity|].
  apply (@console_table_of_extraction ascii_only (parser_giving scenario_mixed)).
  reflexivity.
Defined.

Lemma report_matches_console_witness :
  (@filtered ascii_only (Some (lit "mario")) [untitled] =
     Raised (py.KeyError (lit "title")) /\
   @create_html_table ascii_only slash open_always [untitled] (Some (lit "mario"))
     empty_world = (Raised (py.KeyError (lit "title")), empty_world)) /\
  (@create_html_table ascii_only slash open_always mixed_years None empty_world =
     (Raised py.TypeError, empty_world)) /\
  (open_never (files empty_world) (output_file slash) = false /\
   @create_html_table ascii_only slash open_never test_games None empty_world =
     (Raised py.OSError, empty_world)) /\
  (open_always (files empty_world) (output_file slash) = true /\
   encodable (@html_content ascii_only [the_legend_of_zelda; super_mario_bros] None)
     = true /\
   exists w',
     @create_html_table ascii_only slash open_always
       (map dict_of [the_legend_of_zelda; super_mario_bros]) None empty_world =
       (Returned tt, w') /\
     files w' !! output_file slash =
       Some (@html_content ascii_only [the_legend_of_zelda; super_mario_bros] None)).
Proof.
  split; [|split; [|split] ].
  - split; [reflexivity|].
    apply (proj1 (@report_matches_console ascii_only slash open_always [untitled]
                    (Some (lit "mario")) empty_world [])).
    reflexivity.
  - apply (proj1 (proj1 (proj2 (@report_matches_console ascii_only slash open_always
                                  mixed_years None empty_world []))
                    mixed_years eq_refl)
             (dict_of super_mario_bros) {[ lit "title" := VStr (lit "Tetris") ]});
      [constructor | do 2 constructor | vm_compute; reflexivity].
  - split; [reflexivity|].
    destruct (proj2 (proj1 (proj2 (@report_matches_console ascii_only slash open_never
                                     test_games None empty_world []))
                       test_games eq_refl))
      as (rows & text & _ & _ & _ & H & _).
    + intros a b Ha Hb. unfold test_games in Ha, Hb.
      apply list_elem_of_In in Ha, Hb. simpl in Ha, Hb.
      destruct Ha as [<-|[<-|[]]], Hb as [<-|[<-|[]]]; vm_compute; reflexivity.
    + apply H. reflexivity.
  - split; [reflexivity|]. split; [vm_compute; reflexivity|].
    apply (proj2 (proj2 (@report_matches_console ascii_only slash open_always
                           (map dict_of [the_legend_of_zelda; super_mario_bros])
                           None empty_world []))
             [the_legend_of_zelda; super_mario_bros]);
      [reflexivity | reflexivity | vm_compute; reflexivity].
Defined.

Lemma report_fields_verbatim_witness :
  super_mario_bros ∈ @filter_by_name ascii_only None
                       [the_legend_of_zelda; super_mario_bros] /\
  str_in (lit "<td>" ++ title super_mario_bros ++ lit "</td>")
         (@html_content ascii_only [the_legend_of_zelda; super_mario_bros] None)
  = true.
Proof.
  assert (H : super_mario_bros ∈ @filter_by_name ascii_only None
                                   [the_legend_of_zelda; super_mario_bros]).
  { simpl. apply list_elem_of_In. simpl. auto. }
  split; [exact H|].
  apply (@report_fields_verbatim ascii_only
           [the_legend_of_zelda; super_mario_bros] None super_mario_bros H).
Defined.

(* ===================================================================== *)
(** ** Extensions and replacements *)
(* ===================================================================== *)

Lemma rfind_from_spec (c : N) (s : list N) (i found : Z) :
  (Forall (fun x => x <> c) s /\ rfind_from c s i found = found) \/
  (exists a e, s = a ++ c :: e /\ Forall (fun x => x <> c) e /\
               rfind_from c s i found = (i + Z.of_nat (length a))%Z).
Proof.
  revert i found. induction s as [|x s IH]; intros i found; simpl.
  - left. split; [constructor|reflexivity].
  - destruct (IH (i + 1)%Z (if x =? c then i else found))
      as [[Hno E]|(a & e & -> & He & E)].
    + destruct (N.eqb_spec x c) as [->|Hne].
      * right. exists [], s. simpl. rewrite E. repeat split; auto. lia.
      * left. split; [now constructor|exact E].
    + right. exists (x :: a), e. simpl. rewrite E. repeat split; auto. lia.
Qed.

(** [rfind] gives the place of the last [c]. *)
Lemma rfind_last (c : N) (a e : list N) :
  Forall (fun x => x <> c) e -> rfind c (a ++ c :: e) = Z.of_nat (length a).
Proof.
  intros He. unfold rfind.
  destruct (rfind_from_spec c (a ++ c :: e) 0 (-1))
    as [[Hno _]|(a' & e' & E & He' & ->)].
  - apply Forall_app in Hno as [_ Hno]. inversion Hno; subst. congruence.
  - apply split_at_last in E as [-> _]; auto.
Qed.

Lemma rfind_none (c : N) (s : list N) :
  Forall (fun x => x <> c) s -> rfind c s = (-1)%Z.
Proof.
  intros Hno. unfold rfind.
  destruct (rfind_from_spec c s 0 (-1)) as [[_ E]|(a & e & -> & _ & _)]; [exact E|].
  apply Forall_app in Hno as [_ Hno]. inversion Hno; subst. congruence.
Qed.

Lemma rfind_bounds (c : N) (s : list N) :
  (-1 <= rfind c s < Z.of_nat (length s))%Z.
Proof.
  unfold rfind.
  destruct (rfind_from_spec c s 0 (-1)) as [[_ ->]|(a & e & -> & _ & ->)].
  - lia.
  - rewrite length_app. simpl. lia.
Qed.

(** What comes after the last [c] does not count. *)
Lemma rfind_app_absent (c : N) (pre tail : list N) :
  Forall (fun x => x <> c) tail -> rfind c (pre ++ tail) = rfind c pre.
Proof.
  intros Ht. unfold rfind at 2.
  destruct (rfind_from_spec c pre 0 (-1)) as [[Hno ->]|(a & e & -> & He & ->)].
  - apply rfind_none. now apply Forall_app.
  - rewrite <- app_assoc. simpl. rewrite rfind_last; [lia|]. now apply Forall_app.
Qed.

(** The last [c] is not before any [c]. *)
Lemma rfind_ge (c : N) (a e : list N) :
  (Z.of_nat (length a) <= rfind c (a ++ c :: e))%Z.
Proof.
  destruct (rfind_from_spec c e 0 (-1)) as [[Hno _]|(a' & e' & -> & He' & _)].
  - rewrite rfind_last by exact Hno. lia.
  - change (a ++ c :: a' ++ c :: e') with (a ++ (c :: a') ++ c :: e').
    rewrite app_assoc, rfind_last by exact He'. rewrite length_app. lia.
Qed.

(** The last separator of a path, as [_splitext] computes it. *)
Lemma sep_index_cases (pf : platform) (p : list N) :
  match path_altsep pf with
  | Some altsep => Z.max (rfind (path_sep pf) p) (rfind altsep p)
  | None => rfind (path_sep pf) p
  end = rfind (path_sep pf) p \/
  exists altsep, path_altsep pf = Some altsep /\
    match path_altsep pf with
    | Some altsep => Z.max (rfind (path_sep pf) p) (rfind altsep p)
    | None => rfind (path_sep pf) p
    end = rfind altsep p.
Proof.
  destruct (path_altsep pf) as [altsep|]; [|now left].
  destruct (Z.max_spec (rfind (path_sep pf) p) (rfind altsep p)) as [[_ ->]|[_ ->]];
    [right; eauto | now left].
Qed.

(** A character that is no dot and no separator, then a dot and
    characters that are neither: the extension is that dot and what
    follows. *)
Lemma splitext_extension (pf : platform) (pre : list N) (c : N) (e : list N) :
  c <> extsep -> c <> path_sep pf ->
  (forall altsep, path_altsep pf = Some altsep -> c <> altsep) ->
  Forall (fun x => x <> extsep) e ->
  Forall (fun x => x <> path_sep pf) e ->
  (forall altsep, path_altsep pf = Some altsep -> Forall (fun x => x <> altsep) e) ->
  extsep <> path_sep pf ->
  (forall altsep, path_altsep pf = Some altsep -> extsep <> altsep) ->
  splitext pf (pre ++ c :: extsep :: e) = (pre ++ [c], extsep :: e).
Proof.
  intros Hcd Hcs Hca Hed Hes Hea Hds Hda. unfold splitext.
  set (p := pre ++ c :: extsep :: e).
  assert (Hdot : rfind extsep p = Z.of_nat (length pre + 1)).
  { unfold p. change (pre ++ c :: extsep :: e) with (pre ++ [c] ++ extsep :: e).
    rewrite app_assoc, rfind_last by exact Hed. now rewrite length_app. }
  assert (Htail : forall s, s <> c -> s <> extsep -> Forall (fun x => x <> s) e ->
                            (-1 <= rfind s p < Z.of_nat (length pre))%Z).
  { intros s Hsc Hsd Hse. unfold p. rewrite rfind_app_absent.
    - apply rfind_bounds.
    - constructor; [congruence|]. constructor; [congruence|exact Hse]. }
  set (sepIndex := match path_altsep pf with
                   | Some altsep => Z.max (rfind (path_sep pf) p) (rfind altsep p)
                   | None => rfind (path_sep pf) p
                   end).
  assert (Hsep : (-1 <= sepIndex < Z.of_nat (length pre))%Z).
  { unfold sepIndex.
    destruct (sep_index_cases pf p) as [->|(altsep & Ha & ->)].
    - apply Htail; auto.
    - apply Htail; [intros E; now apply (Hca _ Ha) | intros E; now apply (Hda _ Ha)
                   | now apply Hea]. }
  rewrite Hdot.
  replace (sepIndex <? Z.of_nat (length pre + 1))%Z with true
    by (symmetry; apply Z.ltb_lt; lia).
  assert (Hslice : slice p (sepIndex + 1) (Z.of_nat (length pre + 1))
                   = drop (Z.to_nat (sepIndex + 1)) pre ++ [c]).
  { unfold slice, p. rewrite Nat2Z.id.
    rewrite drop_app_le by lia.
    change (c :: extsep :: e) with ([c] ++ extsep :: e). rewrite app_assoc.
    rewrite take_app_length'; [reflexivity|].
    rewrite length_app, length_drop. simpl. lia. }
  rewrite Hslice, existsb_app. cbn [existsb].
  rewrite (proj2 (N.eqb_neq c extsep) Hcd). cbn [negb orb andb].
  rewrite orb_true_r. cbn [andb]. rewrite Nat2Z.id. unfold p.
  change (pre ++ c :: extsep :: e) with (pre ++ [c] ++ extsep :: e).
  rewrite app_assoc.
  rewrite take_app_length', drop_app_length'; auto; rewrite length_app; simpl; lia.
Qed.

(** An extension that is not empty is a dot and then characters that are
    neither dots nor separators, and the path is the root and then the
    extension. *)
Lemma splitext_inv (pf : platform) (p root ext : list N) :
  splitext pf p = (root, ext) -> ext <> [] ->
  exists e,
    ext = extsep :: e /\ p = root ++ ext /\
    Forall (fun x => x <> extsep) e /\
    Forall (fun x => x <> path_sep pf) e /\
    (forall altsep, path_altsep pf = Some altsep -> Forall (fun x => x <> altsep) e).
Proof.
  unfold splitext.
  set (sepIndex := match path_altsep pf with
                   | Some altsep => Z.max (rfind (path_sep pf) p) (rfind altsep p)
                   | None => rfind (path_sep pf) p
                   end).
  destruct ((sepIndex <? rfind extsep p)%Z && _) eqn:Hc;
    [|intros [= <- <-] Hne; contradiction].
  apply andb_true_iff in Hc as [Hlt _]. apply Z.ltb_lt in Hlt.
  assert (Hs : (rfind (path_sep pf) p <= sepIndex)%Z).
  { unfold sepIndex. destruct (path_altsep pf); lia. }
  assert (Ha : forall altsep, path_altsep pf = Some altsep ->
                              (rfind altsep p <= sepIndex)%Z).
  { intros altsep E. unfold sepIndex. rewrite E. lia. }
  assert (Hge : (-1 <= sepIndex)%Z) by (pose proof (rfind_bounds (path_sep pf) p); lia).
  clearbody sepIndex.
  unfold rfind in Hlt |- *.
  destruct (rfind_from_spec extsep p 0 (-1)) as [[_ E]|(a & e & -> & He & E)];
    rewrite Z.add_0_l in E || idtac; rewrite E in *; [lia|]. clear E.
  rewrite Nat2Z.id, take_app_length, drop_app_length.
  intros [= <- <-] _. exists e. repeat split; auto.
  - apply Forall_forall. intros x Hx ->. apply list_elem_of_split in Hx as (x1 & x2 & ->).
    pose proof (rfind_ge (path_sep pf) (a ++ extsep :: x1) x2) as H.
    rewrite <- app_assoc in H. simpl in H. rewrite length_app in H. simpl in H. lia.
  - intros altsep Ea. specialize (Ha _ Ea).
    apply Forall_forall. intros x Hx ->. apply list_elem_of_split in Hx as (x1 & x2 & ->).
    pose proof (rfind_ge altsep (a ++ extsep :: x1) x2) as H.
    rewrite <- app_assoc in H. simpl in H. rewrite length_app in H. simpl in H. lia.
Qed.

(** X11. Renaming keeps the extension: when the old name has one, the
    new name has the same, under [posixpath] and under [ntpath], whatever
    the year, the publisher and the rest of the name are. *)
Theorem rename_keeps_extension (pf : platform) (old_name : list N) (year : Z)
    (publisher : list N) :
  snd (splitext pf old_name) <> [] ->
  exists root,
    splitext pf (new_name pf old_name year publisher) =
      (root, snd (splitext pf old_name)) /\
    new_name pf old_name year publisher = root ++ snd (splitext pf old_name).
Proof.
  intros Hne. destruct (splitext pf old_name) as [root0 ext] eqn:Es. simpl in *.
  destruct (splitext_inv _ _ _ _ Es Hne) as (e & -> & _ & Hd & Hs & Ha).
  unfold new_name. rewrite Es. simpl snd.
  set (base := strip _).
  exists (str_of_int year ++ lit " - " ++ base ++ lit " (USA) (" ++ publisher ++ [41]).
  assert (E : str_of_int year ++ lit " - " ++ base ++ lit " (USA) ("
                ++ publisher ++ lit ")" ++ extsep :: e
              = (str_of_int year ++ lit " - " ++ base ++ lit " (USA) (" ++ publisher)
                  ++ 41 :: extsep :: e).
  { repeat rewrite <- app_assoc. reflexivity. }
  rewrite E. split.
  - rewrite splitext_extension;
      [repeat rewrite <- app_assoc; reflexivity | ..]; auto;
      destruct pf; simpl; try discriminate;
      intros altsep Ea; inversion Ea; subst; discriminate.
  - repeat rewrite <- app_assoc. reflexivity.
Qed.

Lemma replace_nonempty (old new s : list N) :
  old <> [] -> replace old new s = replace_from old new 0 s.
Proof. destruct old; [contradiction|reflexivity]. Qed.

Lemma replace_empty_empty (s : list N) : replace [] [] s = s.
Proof. simpl. induction s as [|c s IH]; simpl; [reflexivity|]. now rewrite IH. Qed.

Lemma replace_from_skip_all (old new : list N) (skip : nat) (s : list N) :
  (length s <= skip)%nat -> replace_from old new skip s = [].
Proof.
  revert skip. induction s as [|c s IH]; intros skip H; [reflexivity|].
  simpl in *. destruct skip; [lia|]. apply IH. lia.
Qed.

(** Nothing is replaced where [old] does not occur. *)
Lemma replace_from_absent (old new s : list N) :
  str_in old s = false -> replace_from old new 0 s = s.
Proof.
  induction s as [|c s IH]; [reflexivity|].
  cbn [str_in replace_from]. intros H. apply orb_false_iff in H as [H1 H2].
  rewrite H1. now rewrite IH.
Qed.

Lemma startswith_app (old t : list N) : startswith old (old ++ t) = true.
Proof. apply startswith_spec. eauto. Qed.

(** An [old] that occurs at the end only is taken off the end. *)
Lemma replace_from_at_end (old s : list N) :
  old <> [] ->
  str_in old (removelast (s ++ old)) = false ->
  replace_from old [] 0 (s ++ old) = s.
Proof.
  intros Hold. induction s as [|x s IH]; intros Hno.
  - destruct old as [|c o]; [contradiction|].
    pose proof (startswith_app (c :: o) []) as Hs. rewrite app_nil_r in Hs.
    change ([] ++ c :: o) with (c :: o). cbn [replace_from]. rewrite Hs.
    cbn [app]. apply replace_from_skip_all. simpl. lia.
  - assert (Hne : s ++ old <> []) by (destruct s, old; simpl; congruence).
    assert (Hr : removelast ((x :: s) ++ old) = x :: removelast (s ++ old)).
    { simpl. destruct (s ++ old); [contradiction|reflexivity]. }
    rewrite Hr in Hno. cbn [str_in] in Hno.
    apply orb_false_iff in Hno as [Hs Hno].
    simpl app. cbn [replace_from].
    destruct (startswith old (x :: s ++ old)) eqn:Est.
    + exfalso. apply startswith_spec in Est as [t Et].
      assert (Hlen : length t = S (length s)).
      { apply (f_equal (@length N)) in Et. simpl in Et.
        rewrite !length_app in Et. lia. }
      destruct (exists_last (l := t)) as (t' & z & ->);
        [intros ->; discriminate|].
      assert (Hrl : removelast (x :: s ++ old) = old ++ t').
      { rewrite Et, app_assoc. apply removelast_last. }
      change (x :: s ++ old) with ((x :: s) ++ old) in Hrl. rewrite Hr in Hrl.
      assert (Hin : str_in old (x :: removelast (s ++ old)) = true).
      { rewrite Hrl. apply str_in_spec. exists [], t'. reflexivity. }
      cbn [str_in] in Hin. rewrite Hs, Hno in Hin. discriminate.
    + f_equal. now apply IH.
Qed.

(** X12. The name a ROM is renamed to.  For an old name made of a stem,
    possibly one of the tags " (USA)" and " (usa)", and its extension,
    in which the extension text and the tags occur nowhere else, the new
    name is the year, " - ", the stem stripped, " (USA) (", the publisher,
    ")" and the extension. *)
Theorem rename_tagged_name (pf : platform) (stem tag ext : list N) (year : Z)
    (publisher : list N) :
  snd (splitext pf (stem ++ tag ++ ext)) = ext ->
  ext = [] \/ str_in ext (removelast (stem ++ tag ++ ext)) = false ->
  (tag = [] /\ str_in (lit " (USA)") stem = false /\
   str_in (lit " (usa)") stem = false) \/
  (tag = lit " (USA)" /\
   str_in (lit " (USA)") (removelast (stem ++ lit " (USA)")) = false /\
   str_in (lit " (usa)") stem = false) \/
  (tag = lit " (usa)" /\ str_in (lit " (USA)") (stem ++ lit " (usa)") = false /\
   str_in (lit " (usa)") (removelast (stem ++ lit " (usa)")) = false) ->
  new_name pf (stem ++ tag ++ ext) year publisher =
  str_of_int year ++ lit " - " ++ strip stem ++ lit " (USA) ("
    ++ publisher ++ lit ")" ++ ext.
Proof.
  intros Hext Hend Htag. unfold new_name. rewrite Hext.
  assert (H1 : replace ext [] (stem ++ tag ++ ext) = stem ++ tag).
  { destruct Hend as [->|Hend].
    - now rewrite replace_empty_empty, app_nil_r.
    - destruct ext as [|c e]; [now rewrite replace_empty_empty, app_nil_r|].
      rewrite replace_nonempty by discriminate.
      rewrite app_assoc in *. now apply replace_from_at_end. }
  rewrite H1.
  assert (Hu : lit " (USA)" <> []) by discriminate.
  assert (Hl : lit " (usa)" <> []) by discriminate.
  rewrite !replace_nonempty by assumption.
  destruct Htag as [(-> & Hu1 & Hl1)|[(-> & Hu1 & Hl1)|(-> & Hu1 & Hl1)]].
  - rewrite app_nil_r.
    rewrite (replace_from_absent (lit " (USA)")) by assumption.
    now rewrite replace_from_absent by assumption.
  - rewrite (replace_from_at_end (lit " (USA)")) by assumption.
    now rewrite replace_from_absent by assumption.
  - rewrite (replace_from_absent (lit " (USA)")) by assumption.
    now rewrite replace_from_at_end by assumption.
Qed.

(* ===================================================================== *)
(** ** Looking a ROM up *)
(* ===================================================================== *)

Section RomFacts.

Context {U : UnicodeData}.
Variable directory : Type.
Variable path_rename : directory -> list N -> list N -> list N + directory.
Variable iterdir : directory -> list N + list (list N * bool).

Lemma list_in_spec (x : list N) (l : list (list N)) :
  list_in x l = true <-> x ∈ l.
Proof.
  unfold list_in, str_eqb. rewrite existsb_exists. split.
  - intros (y & Hy & E). apply bool_decide_eq_true in E. subst. now apply list_elem_of_In.
  - intros H. exists x. split; [now apply list_elem_of_In|]. now apply bool_decide_eq_true.
Qed.

(** What [check_rom_exists] returns is whether a name tried is listed. *)
Lemma check_rom_exists_found (pf : platform) (title : list N) (roms_dir : directory)
    (year : option Z) (publisher : option (list N)) (out : list (list N))
    (entries : list (list N * bool)) :
  iterdir roms_dir = inr entries ->
  fst (fst (check_rom_exists directory path_rename iterdir pf title roms_dir
              year publisher out)) = true <->
  exists name, name ∈ all_names_tried title /\ name ∈ all_files_of entries.
Proof.
  intros Hi. unfold check_rom_exists. rewrite Hi.
  destruct (List.find _ _) as [name|] eqn:Ef.
  - apply find_some in Ef as [Hin Hl].
    split.
    + intros _. exists name. split; [now apply list_elem_of_In|now apply list_in_spec].
    + intros _. destruct (truthy year publisher) as [[y p]|]; [|reflexivity].
      unfold rename_rom_file. destruct (path_rename _ _ _); reflexivity.
  - split; [discriminate|].
    intros (name & Hin & Hl). apply list_elem_of_In in Hin.
    pose proof (find_none _ _ Ef name Hin) as Hn. simpl in Hn.
    apply list_in_spec in Hl. congruence.
Qed.

(** X13. The test for the upper-case tag never succeeds, the listing
    being lower-cased: when no lower-cased string has the letter U in it,
    as with [str.lower], [check_rom_exists] returns [True] exactly when,
    for one of the three extensions and one of the ten variations of the
    title, the variation followed by " (usa)" and the extension, or by the
    extension alone, is the lower-cased name of a file of the directory. *)
Theorem upper_case_tag_never_found (pf : platform) (title : list N)
    (roms_dir : directory) (year : option Z) (publisher : option (list N))
    (out : list (list N)) (entries : list (list N * bool)) :
  (forall s, Forall (fun c => c <> 85) (lower s)) ->
  iterdir roms_dir = inr entries ->
  (forall variation ext,
     list_in (variation ++ lit " (USA)" ++ ext) (all_files_of entries) = false) /\
  (fst (fst (check_rom_exists directory path_rename iterdir pf title roms_dir
               year publisher out)) = true <->
   exists ext variation name,
     ext ∈ rom_extensions /\ variation ∈ variations (rom_filename title) /\
     (name, true) ∈ entries /\
     (lower name = variation ++ lit " (usa)" ++ ext \/
      lower name = variation ++ ext)).
Proof.
  intros Hlow Hi.
  assert (Hdead : forall variation ext,
             list_in (variation ++ lit " (USA)" ++ ext) (all_files_of entries) = false).
  { intros v ext. apply not_true_is_false. intros H.
    apply list_in_spec, list_elem_of_In, in_map_iff in H as ([name b] & E & _).
    simpl in E. specialize (Hlow name). rewrite E in Hlow.
    apply Forall_app in Hlow as [_ Hlow].
    change (lit " (USA)" ++ ext) with (32 :: 40 :: 85 :: 83 :: 65 :: 41 :: ext) in Hlow.
    inversion Hlow as [|? ? _ Hl1]. inversion Hl1 as [|? ? _ Hl2].
    inversion Hl2 as [|? ? Hl3 _]. exact (Hl3 eq_refl). }
  split; [exact Hdead|].
  rewrite (check_rom_exists_found _ _ _ _ _ _ _ Hi).
  assert (Hfiles : forall x, x ∈ all_files_of entries <->
                             exists name, (name, true) ∈ entries /\ lower name = x).
  { intros x. unfold all_files_of. rewrite list_elem_of_In, in_map_iff. split.
    - intros ([name b] & E & Hin). apply filter_In in Hin as [Hin Hb].
      simpl in *. subst b. exists name. split; [now apply list_elem_of_In|exact E].
    - intros (name & Hin & E). exists (name, true). split; [exact E|].
      apply filter_In. split; [now apply list_elem_of_In|reflexivity]. }
  split.
  - intros (x & Hx & Hl). unfold all_names_tried in Hx.
    apply list_elem_of_In, in_flat_map in Hx as (ext & Hext & Hx).
    apply in_flat_map in Hx as (v & Hv & Hx).
    apply Hfiles in Hl as (name & Hname & E).
    exists ext, v, name. repeat split; try (now apply list_elem_of_In); auto.
    simpl in Hx. destruct Hx as [<- | [<- | [<- | [] ] ] ]; auto.
    exfalso. specialize (Hdead v ext).
    assert (Hin : v ++ lit " (USA)" ++ ext ∈ all_files_of entries)
      by (apply Hfiles; eauto).
    apply list_in_spec in Hin. congruence.
  - intros (ext & v & name & Hext & Hv & Hname & E).
    assert (Htried : forall x, In x (names_tried v ext) -> x ∈ all_names_tried title).
    { intros x Hx. unfold all_names_tried. apply list_elem_of_In, in_flat_map.
      exists ext. split; [now apply list_elem_of_In|].
      apply in_flat_map. exists v. split; [now apply list_elem_of_In|exact Hx]. }
    destruct E as [E|E]; exists (lower name);
      (split; [apply Htried; rewrite E; simpl; auto | apply Hfiles; eauto]).
Qed.

(** X14. What [check_rom_exists] does besides answering.  When the
    directory cannot be listed it prints the error and returns [False];
    when no name tried is listed it returns [False] and prints nothing;
    in both cases the directory is left alone.  When a name is found but
    the year is missing or 0, or the publisher missing or empty, it
    returns [True] and renames nothing.  When a name is found and both are
    given, the name passed to [rename_rom_file] is a lower-cased name of
    the listing, and [True] is returned whether the renaming worked or
    not. *)
Theorem check_rom_exists_effects (pf : platform) (title : list N)
    (roms_dir : directory) (year : option Z) (publisher : option (list N))
    (out : list (list N)) :
  (forall e, iterdir roms_dir = inl e ->
     check_rom_exists directory path_rename iterdir pf title roms_dir
       year publisher out =
     (false, roms_dir, out ++ [lit "Error accessing ROM directory: " ++ e])) /\
  (forall entries, iterdir roms_dir = inr entries ->
     (forall name, name ∈ all_names_tried title -> name ∉ all_files_of entries) ->
     check_rom_exists directory path_rename iterdir pf title roms_dir
       year publisher out = (false, roms_dir, out)) /\
  (forall entries name, iterdir roms_dir = inr entries ->
     name ∈ all_names_tried title -> name ∈ all_files_of entries ->
     (year = None \/ year = Some 0%Z \/ publisher = None \/ publisher = Some []) ->
     check_rom_exists directory path_rename iterdir pf title roms_dir
       year publisher out = (true, roms_dir, out)) /\
  (forall entries name y c p, iterdir roms_dir = inr entries ->
     name ∈ all_names_tried title -> name ∈ all_files_of entries ->
     year = Some y -> y <> 0%Z -> publisher = Some (c :: p) ->
     exists found ok roms_dir' out',
       found ∈ all_files_of entries /\
       rename_rom_file directory path_rename pf found y (c :: p) roms_dir out
         = (ok, roms_dir', out') /\
       check_rom_exists directory path_rename iterdir pf title roms_dir
         year publisher out = (true, roms_dir', out')).
Proof.
  assert (Hfind : forall entries name,
             name ∈ all_names_tried title -> name ∈ all_files_of entries ->
             exists found,
               List.find (fun n => list_in n (all_files_of entries))
                         (all_names_tried title) = Some found /\
               found ∈ all_files_of entries).
  { intros entries name Hn Hl.
    destruct (List.find _ _) as [found|] eqn:Ef.
    - exists found. split; [reflexivity|].
      apply find_some in Ef as [_ Hf]. now apply list_in_spec.
    - apply list_elem_of_In in Hn. pose proof (find_none _ _ Ef name Hn) as H.
      simpl in H. apply list_in_spec in Hl. congruence. }
  unfold check_rom_exists. repeat split.
  - intros e ->. reflexivity.
  - intros entries -> Hnone.
    destruct (List.find _ _) as [found|] eqn:Ef; [|reflexivity].
    apply find_some in Ef as [Hin Hf]. apply list_in_spec in Hf.
    apply list_elem_of_In in Hin. now destruct (Hnone found Hin).
  - intros entries name -> Hn Hl Hmiss.
    destruct (Hfind entries name Hn Hl) as (found & -> & _).
    replace (truthy year publisher) with (@None (Z * list N)); [reflexivity|].
    destruct Hmiss as [Hm | [Hm | [Hm | Hm] ] ]; rewrite Hm.
    + reflexivity.
    + destruct publisher as [[|c p]|]; reflexivity.
    + destruct year as [y|]; reflexivity.
    + destruct year as [y|]; reflexivity.
  - intros entries name y c p -> Hn Hl -> Hy ->.
    destruct (Hfind entries name Hn Hl) as (found & -> & Hf).
    simpl. rewrite (proj2 (Z.eqb_neq y 0) Hy).
    destruct (rename_rom_file directory path_rename pf found y (c :: p) roms_dir out)
      as [[ok roms_dir'] out'] eqn:Er.
    exists found, ok, roms_dir', out'. auto.
Qed.

End RomFacts.

(* ===================================================================== *)
(** ** Renaming and looking up, at sample data *)
(* ===================================================================== *)

(** The ROM of the sample directory is found by its title; the renaming
    is asked for the lower-cased name, which is not the name on disk, so
    that it fails here, and [True] is returned all the same. *)
Example sample_rom_found :
  @check_rom_exists ascii_only _ sample_rename sample_iterdir Posix
    (lit "Super Mario Bros.") sample_roms (Some 85%Z) (Some (lit "Nintendo")) [] =
  (true, sample_roms,
   [[]; lit "Proposed rename:";
    lit "From: super mario bros. (usa).nes";
    lit "To:   85 - super mario bros. (USA) (Nintendo).nes";
    lit "Error renaming super mario bros. (usa).nes: No such file or directory"]).
Proof. vm_compute. reflexivity. Qed.

Lemma rename_keeps_extension_witness :
  snd (splitext Posix (lit "super mario bros. (usa).nes")) <> [] /\
  exists root,
    splitext Posix (new_name Posix (lit "super mario bros. (usa).nes") 85
                                   (lit "Nintendo")) =
      (root, snd (splitext Posix (lit "super mario bros. (usa).nes"))) /\
    new_name Posix (lit "super mario bros. (usa).nes") 85 (lit "Nintendo") =
      root ++ snd (splitext Posix (lit "super mario bros. (usa).nes")).
Proof.
  split; [vm_compute; discriminate|].
  apply (rename_keeps_extension Posix (lit "super mario bros. (usa).nes") 85%Z
           (lit "Nintendo")).
  vm_compute. discriminate.
Defined.

Lemma rename_tagged_name_witness :
  snd (splitext Windows (lit "super mario bros." ++ lit " (usa)" ++ lit ".nes"))
    = lit ".nes" /\
  str_in (lit ".nes")
         (removelast (lit "super mario bros." ++ lit " (usa)" ++ lit ".nes")) = false /\
  str_in (lit " (USA)") (lit "super mario bros." ++ lit " (usa)") = false /\
  str_in (lit " (usa)") (removelast (lit "super mario bros." ++ lit " (usa)")) = false /\
  new_name Windows (lit "super mario bros." ++ lit " (usa)" ++ lit ".nes") 85
           (lit "Nintendo") =
  str_of_int 85 ++ lit " - " ++ strip (lit "super mario bros.") ++ lit " (USA) ("
    ++ lit "Nintendo" ++ lit ")" ++ lit ".nes".
Proof.
  split; [vm_compute; reflexivity|]. split; [vm_compute; reflexivity|].
  split; [vm_compute; reflexivity|]. split; [vm_compute; reflexivity|].
  apply (rename_tagged_name Windows (lit "super mario bros.") (lit " (usa)")
           (lit ".nes") 85%Z (lit "Nintendo")).
  - vm_compute. reflexivity.
  - right. vm_compute. reflexivity.
  - right. right. split; [reflexivity|]. split; vm_compute; reflexivity.
Defined.

Lemma ascii_only_lower_no_U (s : list N) :
  Forall (fun c => c <> 85) (@lower ascii_only s).
Proof.
  simpl. induction s as [|c s IH]; simpl; constructor; [|exact IH].
  unfold ascii_lower.
  destruct (N.leb_spec 65 c), (N.leb_spec c 90); simpl; lia.
Qed.

Lemma upper_case_tag_never_found_witness :
  (forall s, Forall (fun c => c <> 85) (@lower ascii_only s)) /\
  sample_iterdir sample_roms = inr sample_roms /\
  (fst (fst (@check_rom_exists ascii_only _ sample_rename sample_iterdir Posix
               (lit "Super Mario Bros.") sample_roms None None [])) = true <->
   exists ext variation name,
     ext ∈ rom_extensions /\
     variation ∈ @variations ascii_only (rom_filename (lit "Super Mario Bros.")) /\
     (name, true) ∈ sample_roms /\
     (@lower ascii_only name = variation ++ lit " (usa)" ++ ext \/
      @lower ascii_only name = variation ++ ext)).
Proof.
  split; [exact ascii_only_lower_no_U|]. split; [reflexivity|].
  apply (proj2 (@upper_case_tag_never_found ascii_only _ sample_rename sample_iterdir
                  Posix (lit "Super Mario Bros.") sample_roms None None []
                  sample_roms ascii_only_lower_no_U eq_refl)).
Defined.

Lemma check_rom_exists_effects_witness :
  (missing_iterdir sample_roms = inl (lit "No such file or directory") /\
   @check_rom_exists ascii_only _ sample_rename missing_iterdir Posix
     (lit "Super Mario Bros.") sample_roms (Some 85%Z) (Some (lit "Nintendo")) [] =
   (false, sample_roms,
    [] ++ [lit "Error accessing ROM directory: " ++ lit "No such file or directory"])) /\
  (sample_iterdir sample_roms = inr sample_roms /\
   lit "super mario bros. (usa).nes" ∈ @all_names_tried ascii_only (lit "Super Mario Bros.") /\
   lit "super mario bros. (usa).nes" ∈ @all_files_of ascii_only sample_roms /\
   @check_rom_exists ascii_only _ sample_rename sample_iterdir Posix
     (lit "Super Mario Bros.") sample_roms (Some 0%Z) (Some (lit "Nintendo")) [] =
   (true, sample_roms, [])).
Proof.
  pose proof (@check_rom_exists_effects ascii_only _ sample_rename) as H.
  assert (H1 : lit "super mario bros. (usa).nes"
               ∈ @all_names_tried ascii_only (lit "Super Mario Bros."))
    by (apply list_in_spec; vm_compute; reflexivity).
  assert (H2 : lit "super mario bros. (usa).nes" ∈ @all_files_of ascii_only sample_roms)
    by (apply list_in_spec; vm_compute; reflexivity).
  split.
  - split; [reflexivity|].
    apply (proj1 (H missing_iterdir Posix (lit "Super Mario Bros.") sample_roms
                    (Some 85%Z) (Some (lit "Nintendo")) [])). reflexivity.
  - split; [reflexivity|]. split; [exact H1|]. split; [exact H2|].
    apply (proj1 (proj2 (proj2 (H sample_iterdir Posix (lit "Super Mario Bros.")
                                  sample_roms (Some 0%Z) (Some (lit "Nintendo")) [])))
             sample_roms (lit "super mario bros. (usa).nes") eq_refl H1 H2).
    right. left. reflexivity.
Defined.
